(** * The DDL worker of ddl/ddl_worker.go

    A shallow embedding of the owner-gated DDL job worker: the job record,
    the meta store with its two job queues and the history archive, the
    runner [runDDLJob], finalization [finishDDLJob], the drain pass
    [handleDDLJobQueue], the worker loop [onDDLWorker], the dependency
    resolver [buildJobDependence] and the legacy-queue migration
    [cleanAddIndexQueueJobs].

    Go pointers to a job become explicit job passing: a function that
    mutates [job] returns the new job.  The transaction handle [t *meta.Meta]
    is passed and returned in the same way.  Calls to collaborators that
    keep no state in this file (hooks, the schema syncer, the binlog client,
    the reorg context, sleeping, channel notification) are recorded in a
    trace, oldest first. *)

From Stdlib Require Import ZArith String Bool Lia.
From stdpp Require Import base option list gmap.

Local Open Scope Z_scope.

(** ** Machine integers *)

(** Go's int64 (job counters, [time.Duration]) wraps around. *)
Definition wrap64 (z : Z) : Z := (z + 2 ^ 63) mod 2 ^ 64 - 2 ^ 63.

(** ** Errors *)

(** Values of [*terror.Error] that this file names or receives. *)
Inductive TError : Type :=
| ErrEntryTooLarge                         (* kv.ErrEntryTooLarge *)
| errCancelledDDLJob
| errInvalidDDLJob
| errInvalidJobVersion (v cur : Z)         (* GenByArgs(job.Version, currentVersion) *)
| ErrCoded (class code : Z)                (* any other terror *)
| ErrDDLUnknown (msg : string).            (* terror.ClassDDL.New(CodeUnknown, msg) *)

(** A Go [error], seen through [errors.Cause]: [errors.Trace] only adds a
    stack annotation and is the identity here. *)
Inductive error : Type :=
| TErr (e : TError)
| DeadlineExceeded                         (* context.DeadlineExceeded *)
| PlainErr (msg : string).

Definition errorText (err : error) : string :=
  match err with
  | TErr _ => "terror"
  | DeadlineExceeded => "context deadline exceeded"
  | PlainErr msg => msg
  end.

Definition toTError (err : error) : TError :=
  match err with
  | TErr tErr => tErr
  | _ => ErrDDLUnknown (errorText err)
  end.

(** [kv.ErrEntryTooLarge.Equal(err)] *)
Definition isEntryTooLarge (err : error) : bool :=
  match err with
  | TErr ErrEntryTooLarge => true
  | _ => false
  end.

(** [terror.ErrorEqual(err, context.DeadlineExceeded)]: the two causes are
    the same value or, [context.DeadlineExceeded] being no [*terror.Error],
    they have the same text. *)
Definition isDeadlineExceeded (err : error) : bool :=
  match err with
  | DeadlineExceeded => true
  | _ => String.eqb (errorText err) (errorText DeadlineExceeded)
  end.

(** ** The job record (package model) *)

Inductive ActionType : Type :=
| ActionCreateSchema | ActionDropSchema | ActionCreateTable | ActionDropTable
| ActionAddColumn | ActionDropColumn | ActionModifyColumn
| ActionAddIndex | ActionDropIndex
| ActionAddForeignKey | ActionDropForeignKey
| ActionTruncateTable | ActionRebaseAutoID | ActionRenameTable
| ActionSetDefaultValue | ActionShardRowID | ActionModifyTableComment
| ActionRenameIndex
| ActionOther (code : Z).                  (* a type tag the switch does not list *)

Inductive JobState : Type :=
| JobStateQueued | JobStateRunning | JobStateCancelling | JobStateCancelled
| JobStateRollingback | JobStateRollbackDone | JobStateDone | JobStateSynced.

Inductive SchemaState : Type :=
| StateNone | StateDeleteOnly | StateWriteOnly | StateWriteReorganization
| StatePublic.

Global Instance ActionType_eq_dec : EqDecision ActionType.
Proof. solve_decision. Defined.
Global Instance JobState_eq_dec : EqDecision JobState.
Proof. solve_decision. Defined.
Global Instance SchemaState_eq_dec : EqDecision SchemaState.
Proof. solve_decision. Defined.

Inductive Arg : Type :=
| ArgBool (b : bool)
| ArgInt (z : Z)
| ArgStr (s : string).

Record IndexInfo : Type := {
  idxName : string;
  idxState : SchemaState
}.

Record TableInfo : Type := {
  tblID : Z;
  Indices : list IndexInfo
}.

(** Modelled from the spec: [model.HistoryInfo], the type of
    [Job.BinlogInfo], is declared outside ddl_worker.go.  The spec lists
    [{SchemaVersion, FinishedTS, ...}] and calls the rest the auxiliary
    payload. *)
Record HistoryInfo : Type := {
  SchemaVersion : Z;
  DBInfo : option Z;
  BinlogTableInfo : option TableInfo;
  FinishedTS : Z
}.

(** Modelled from the spec: [HistoryInfo.Clean] clears the payload that
    makes the record large; the completion stamp is not part of it. *)
Definition Clean (h : HistoryInfo) : HistoryInfo :=
  {| SchemaVersion := 0; DBInfo := None; BinlogTableInfo := None;
     FinishedTS := FinishedTS h |}.

Definition setFinishedTS (ts : Z) (h : HistoryInfo) : HistoryInfo :=
  {| SchemaVersion := SchemaVersion h; DBInfo := DBInfo h;
     BinlogTableInfo := BinlogTableInfo h; FinishedTS := ts |}.

Record Job : Type := {
  ID : Z;
  Type_ : ActionType;
  SchemaID : Z;
  TableID : Z;
  State : JobState;
  SchemaState_ : SchemaState;
  Args : option (list Arg);                (* nil until decoded or set *)
  RawArgs : option string;                 (* json.RawMessage, nil or bytes *)
  DependencyID : Z;
  Error : option TError;
  ErrorCount : Z;
  SnapshotVer : Z;
  JobStartTS : Z;
  Query : string;
  BinlogInfo : HistoryInfo;
  Version : Z
}.

(** Field assignments [job.F = v]. *)
Definition setState (s : JobState) (j : Job) : Job :=
  {| ID := ID j; Type_ := Type_ j; SchemaID := SchemaID j; TableID := TableID j;
     State := s; SchemaState_ := SchemaState_ j; Args := Args j;
     RawArgs := RawArgs j; DependencyID := DependencyID j; Error := Error j;
     ErrorCount := ErrorCount j; SnapshotVer := SnapshotVer j;
     JobStartTS := JobStartTS j; Query := Query j; BinlogInfo := BinlogInfo j;
     Version := Version j |}.

Definition setSchemaState (s : SchemaState) (j : Job) : Job :=
  {| ID := ID j; Type_ := Type_ j; SchemaID := SchemaID j; TableID := TableID j;
     State := State j; SchemaState_ := s; Args := Args j;
     RawArgs := RawArgs j; DependencyID := DependencyID j; Error := Error j;
     ErrorCount := ErrorCount j; SnapshotVer := SnapshotVer j;
     JobStartTS := JobStartTS j; Query := Query j; BinlogInfo := BinlogInfo j;
     Version := Version j |}.

Definition setDependencyID (dep : Z) (j : Job) : Job :=
  {| ID := ID j; Type_ := Type_ j; SchemaID := SchemaID j; TableID := TableID j;
     State := State j; SchemaState_ := SchemaState_ j; Args := Args j;
     RawArgs := RawArgs j; DependencyID := dep; Error := Error j;
     ErrorCount := ErrorCount j; SnapshotVer := SnapshotVer j;
     JobStartTS := JobStartTS j; Query := Query j; BinlogInfo := BinlogInfo j;
     Version := Version j |}.

Definition setError (e : option TError) (j : Job) : Job :=
  {| ID := ID j; Type_ := Type_ j; SchemaID := SchemaID j; TableID := TableID j;
     State := State j; SchemaState_ := SchemaState_ j; Args := Args j;
     RawArgs := RawArgs j; DependencyID := DependencyID j; Error := e;
     ErrorCount := ErrorCount j; SnapshotVer := SnapshotVer j;
     JobStartTS := JobStartTS j; Query := Query j; BinlogInfo := BinlogInfo j;
     Version := Version j |}.

Definition setErrorCount (n : Z) (j : Job) : Job :=
  {| ID := ID j; Type_ := Type_ j; SchemaID := SchemaID j; TableID := TableID j;
     State := State j; SchemaState_ := SchemaState_ j; Args := Args j;
     RawArgs := RawArgs j; DependencyID := DependencyID j; Error := Error j;
     ErrorCount := n; SnapshotVer := SnapshotVer j;
     JobStartTS := JobStartTS j; Query := Query j; BinlogInfo := BinlogInfo j;
     Version := Version j |}.

Definition setRawArgs (r : option string) (j : Job) : Job :=
  {| ID := ID j; Type_ := Type_ j; SchemaID := SchemaID j; TableID := TableID j;
     State := State j; SchemaState_ := SchemaState_ j; Args := Args j;
     RawArgs := r; DependencyID := DependencyID j; Error := Error j;
     ErrorCount := ErrorCount j; SnapshotVer := SnapshotVer j;
     JobStartTS := JobStartTS j; Query := Query j; BinlogInfo := BinlogInfo j;
     Version := Version j |}.

Definition setBinlogInfo (h : HistoryInfo) (j : Job) : Job :=
  {| ID := ID j; Type_ := Type_ j; SchemaID := SchemaID j; TableID := TableID j;
     State := State j; SchemaState_ := SchemaState_ j; Args := Args j;
     RawArgs := RawArgs j; DependencyID := DependencyID j; Error := Error j;
     ErrorCount := ErrorCount j; SnapshotVer := SnapshotVer j;
     JobStartTS := JobStartTS j; Query := Query j; BinlogInfo := h;
     Version := Version j |}.

(** [job.ErrorCount++] *)
Definition incErrorCount (j : Job) : Job :=
  setErrorCount (wrap64 (ErrorCount j + 1)) j.

(** The state predicates of [model.Job] are methods declared outside
    ddl_worker.go; the spec names the states of section 3. *)

(** Modelled from the spec: [Job.IsRunning], State = Running. *)
Definition IsRunning (j : Job) : bool :=
  match State j with JobStateRunning => true | _ => false end.

(** Modelled from the spec: [Job.IsRollingback], State = RollingBack. *)
Definition IsRollingback (j : Job) : bool :=
  match State j with JobStateRollingback => true | _ => false end.

(** Modelled from the spec: [Job.IsDone], State = Done. *)
Definition IsDone (j : Job) : bool :=
  match State j with JobStateDone => true | _ => false end.

(** Modelled from the spec: [Job.IsRollbackDone], State = RollbackDone. *)
Definition IsRollbackDone (j : Job) : bool :=
  match State j with JobStateRollbackDone => true | _ => false end.

(** Modelled from the spec: [Job.IsCancelling], State = Cancelling. *)
Definition IsCancelling (j : Job) : bool :=
  match State j with JobStateCancelling => true | _ => false end.

(** Modelled from the spec: [Job.IsCancelled], State = Cancelled. *)
Definition IsCancelled (j : Job) : bool :=
  match State j with JobStateCancelled => true | _ => false end.

(** Modelled from the spec: [Job.IsSynced], State = Synced. *)
Definition IsSynced (j : Job) : bool :=
  match State j with JobStateSynced => true | _ => false end.

(** Modelled from the spec: [Job.IsFinished], the states that section 4.4
    sends to finalization: Done, RollbackDone and Cancelled. *)
Definition IsFinished (j : Job) : bool :=
  IsDone j || IsRollbackDone j || IsCancelled j.

(** ** The meta store (package meta) *)

Inductive JobListKey : Type := DefaultJobListKey | AddIndexJobListKey.

Inductive MetaOp : Type :=
| OpGetAllDDLJobs | OpGetDDLJob | OpUpdateDDLJob | OpDeQueueDDLJob
| OpEnQueueDDLJob | OpAddHistoryDDLJob | OpCommit.

Global Instance MetaOp_eq_dec : EqDecision MetaOp.
Proof. solve_decision. Defined.

(** Modelled from the spec: the transactional store behind package meta
    (sections 4.1 and 4.7): the current job queue, the legacy (adding-index)
    queue, the history archive keyed by job ID, and the global schema
    version.  The queues are held head first: index 0 is the head, a job
    is enqueued at the tail.  [fault] says which operations the store
    refuses, and with which error.  [listOrder] is the order in which the
    store lists a whole queue: package meta is outside ddl_worker.go, which
    does not say whether that is head first (the identity) or newest first
    ([rev]). *)
Record Store : Type := {
  defaultJobs : list Job;
  addIndexJobs : list Job;
  historyJobs : gmap Z Job;
  schemaVersion : Z;
  fault : MetaOp -> option error;
  listOrder : list Job -> list Job
}.

(** Modelled from the spec: [*meta.Meta], declared in package meta, is a
    handle on one transaction of the store, with the start timestamp of the
    transaction and the queue ("current" or "legacy" key namespace of
    section 4.1) it works on. *)
Record Meta : Type := {
  txn : Store;
  StartTS : Z;
  jobListKey : JobListKey
}.

(** Modelled from the spec: [meta.NewMeta(txn)], a handle on the current
    queue. *)
Definition NewMeta (s : Store) (startTS : Z) : Meta :=
  {| txn := s; StartTS := startTS; jobListKey := DefaultJobListKey |}.

(** Modelled from the spec: [Meta.SetJobListKey], the switch between the
    two key namespaces of section 4.1. *)
Definition SetJobListKey (key : JobListKey) (m : Meta) : Meta :=
  {| txn := txn m; StartTS := StartTS m; jobListKey := key |}.

Definition setTxn (s : Store) (m : Meta) : Meta :=
  {| txn := s; StartTS := StartTS m; jobListKey := jobListKey m |}.

Definition jobList (m : Meta) : list Job :=
  match jobListKey m with
  | DefaultJobListKey => defaultJobs (txn m)
  | AddIndexJobListKey => addIndexJobs (txn m)
  end.

Definition setJobList (l : list Job) (m : Meta) : Meta :=
  let s := txn m in
  match jobListKey m with
  | DefaultJobListKey =>
      setTxn {| defaultJobs := l; addIndexJobs := addIndexJobs s;
                historyJobs := historyJobs s; schemaVersion := schemaVersion s;
                fault := fault s; listOrder := listOrder s |} m
  | AddIndexJobListKey =>
      setTxn {| defaultJobs := defaultJobs s; addIndexJobs := l;
                historyJobs := historyJobs s; schemaVersion := schemaVersion s;
                fault := fault s; listOrder := listOrder s |} m
  end.

Definition setHistory (h : gmap Z Job) (m : Meta) : Meta :=
  let s := txn m in
  setTxn {| defaultJobs := defaultJobs s; addIndexJobs := addIndexJobs s;
            historyJobs := h; schemaVersion := schemaVersion s;
            fault := fault s; listOrder := listOrder s |} m.

(** The queue operations of section 4.1 and the archive append of section
    4.7 are methods of package meta; each is refused when the store says
    so. *)

(** Modelled from the spec: [Meta.GetAllDDLJobs], all the jobs of the
    queue, in the order in which the store lists them. *)
Definition GetAllDDLJobs (m : Meta) : list Job + error :=
  match fault (txn m) OpGetAllDDLJobs with
  | Some e => inr e
  | None => inl (listOrder (txn m) (jobList m))
  end.

(** Modelled from the spec: [Meta.GetDDLJob(index)]; at index 0 it is
    [PeekHead()], the head job or the empty sentinel. *)
Definition GetDDLJob (m : Meta) (index : nat) : option Job + error :=
  match fault (txn m) OpGetDDLJob with
  | Some e => inr e
  | None => inl (jobList m !! index)
  end.

(** Modelled from the spec: [Meta.EnQueueDDLJob], [Enqueue(job)]: appends
    at the tail. *)
Definition EnQueueDDLJob (m : Meta) (job : Job) : Meta * option error :=
  match fault (txn m) OpEnQueueDDLJob with
  | Some e => (m, Some e)
  | None => (setJobList (jobList m ++ [job]) m, None)
  end.

(** Modelled from the spec: [Meta.DeQueueDDLJob], [DequeueHead()]: removes
    and returns the head entry. *)
Definition DeQueueDDLJob (m : Meta) : Meta * (option Job + error) :=
  match fault (txn m) OpDeQueueDDLJob with
  | Some e => (m, inr e)
  | None =>
      match jobList m with
      | [] => (m, inl None)
      | j :: rest => (setJobList rest m, inl (Some j))
      end
  end.

(** Modelled from the spec: [Meta.AddHistoryDDLJob] puts a copy of the job
    in the archive under its ID. *)
Definition AddHistoryDDLJob (m : Meta) (job : Job) : Meta * option error :=
  match fault (txn m) OpAddHistoryDDLJob with
  | Some e => (m, Some e)
  | None => (setHistory (<[ID job := job]> (historyJobs (txn m))) m, None)
  end.

(** Modelled from the spec: the record that [UpdateHead(job,
    preserveRawArgs)] stores: the raw form is the job's own [RawArgs] when
    it is to be preserved and the serialization of the typed [Args]
    otherwise.  [encode] is the serializer of the typed arguments. *)
Definition encodeJob (encode : option (list Arg) -> string)
    (updateRawArgs : bool) (job : Job) : Job :=
  if updateRawArgs then setRawArgs (Some (encode (Args job))) job else job.

(** Modelled from the spec: [Meta.UpdateDDLJob(index, job, updateRawArgs)],
    [UpdateHead] at index 0: overwrites the entry at [index]. *)
Definition UpdateDDLJob (encode : option (list Arg) -> string)
    (m : Meta) (index : nat) (job : Job) (updateRawArgs : bool)
  : Meta * option error :=
  match fault (txn m) OpUpdateDDLJob with
  | Some e => (m, Some e)
  | None =>
      if decide (index < length (jobList m))%nat
      then (setJobList (<[index := encodeJob encode updateRawArgs job]> (jobList m)) m,
            None)
      else (m, Some (PlainErr "invalid job index"))
  end.

(** ** The dependency resolver *)

Section Dependence.

(** [curJob.IsDependentOn(job)], a method of package model. *)
Variable IsDependentOn : Job -> Job -> bool + error.

(** The [for _, job := range jobs] loop of [buildJobDependence]. *)
Fixpoint buildJobDependence_range (jobs : list Job) (curJob : Job)
  : Job * option error :=
  match jobs with
  | [] => (curJob, None)
  | job :: rest =>
      if ID curJob <? ID job then buildJobDependence_range rest curJob
      else
        match IsDependentOn curJob job with
        | inr err => (curJob, Some err)
        | inl isDependent =>
            if isDependent then (setDependencyID (ID job) curJob, None)
            else buildJobDependence_range rest curJob
        end
  end.

Definition buildJobDependence (t : Meta) (curJob : Job) : Job * option error :=
  match GetAllDDLJobs t with
  | inr err => (curJob, Some err)
  | inl jobs => buildJobDependence_range jobs curJob
  end.



End Dependence.

(** ** The worker *)

Inductive Context : Type :=
| ctxNil
| ctxTimeout (waitTime : Z).               (* context.WithTimeout(Background, waitTime) *)

Inductive LogLine : Type :=
| LogCleaningTakesTime                     (* the drain found the legacy queue empty *)
| LogCleaningJob (id : Z)
| LogCleaningFinished.                     (* the worker clears shouldCleanJobs *)

(** Calls that leave the worker.  Of the log output only the lines of the
    legacy-queue migration are kept. *)
Inductive Event : Type :=
| EvIsOwner (isOwner : bool)
| EvOnJobRunBefore (job : Job)
| EvOnJobUpdated (job : Job)
| EvSetDDLBinlog (id : Z) (query : string)
| EvNotifyReorgCancel
| EvMustGetGlobalVersion
| EvOwnerUpdateGlobalVersion (ver : Z)
| EvOwnerCheckAllVersions (ver : Z)
| EvCtxDone
| EvSleep
| EvNotifyJobDone
| EvLog (line : LogLine).

(** [d.schemaSyncer]; the first argument is the logical time of the call
    (the number of calls that left the worker before it). *)
Record SchemaSyncer : Type := {
  OwnerUpdateGlobalVersion : nat -> Context -> Z -> option error;
  OwnerCheckAllVersions : nat -> Context -> Z -> option error;
  MustGetGlobalVersion : nat -> Context -> Z * option error
}.

(** An operation handler: [func (d *ddl) onX(t *meta.Meta, job *model.Job)
    (ver int64, err error)], with the mutated handle and job returned. *)
Definition Handler : Type := Meta -> Job -> Meta * Job * Z * option error.

(** The fields of [d *ddl] that the worker reads, and the functions of the
    package that are defined outside ddl_worker.go. *)
Record ddl : Type := {
  lease : Z;
  currentVersion : Z;
  ownerManager : nat -> bool;              (* IsOwner() at a logical time *)
  schemaSyncer : SchemaSyncer;
  delRangeManager : Job -> option error;   (* the failure of addDelRangeJob, if any *)
  beginTS : nat -> Z;                      (* start timestamp of a new transaction *)
  encodeArgs : option (list Arg) -> string;
  onCreateSchema : Handler;
  onDropSchema : Handler;
  onCreateTable : Handler;
  onDropTable : Handler;
  onAddColumn : Handler;
  onDropColumn : Handler;
  onModifyColumn : Handler;
  onCreateIndex : Handler;
  onDropIndex : Handler;
  onCreateForeignKey : Handler;
  onDropForeignKey : Handler;
  onTruncateTable : Handler;
  onRebaseAutoID : Handler;
  onRenameTable : Handler;
  onSetDefaultValue : Handler;
  onShardRowID : Handler;
  onModifyTableComment : Handler;
  onRenameIndex : Handler;
  getTableInfo : Meta -> Job -> Z -> TableInfo + error;
  DecodeArgs : Job -> Job * (bool * string + error);
  findIndexByName : string -> list IndexInfo -> option IndexInfo;
  convert2RollbackJob :
    Meta -> Job -> TableInfo -> option IndexInfo -> Meta * Job * Z * option error
}.

(** What changes while the worker runs: the committed store, the closed
    flag, the range deletions handed to the delete-range manager, and the
    trace. *)
Record World : Type := {
  store : Store;
  closed : bool;
  delRangeJobs : list Job;
  trace : list Event
}.

Definition emit (e : Event) (w : World) : World :=
  {| store := store w; closed := closed w; delRangeJobs := delRangeJobs w;
     trace := trace w ++ [e] |}.

Definition setStore (s : Store) (w : World) : World :=
  {| store := s; closed := closed w; delRangeJobs := delRangeJobs w;
     trace := trace w |}.

Definition keepDelRange (job : Job) (w : World) : World :=
  {| store := store w; closed := closed w;
     delRangeJobs := delRangeJobs w ++ [job]; trace := trace w |}.

Definition now (w : World) : nat := length (trace w).

Inductive Signal : Type := TickerC | DDLJobCh | QuitCh.

(** [time.Second], in nanoseconds, the unit of [time.Duration]. *)
Definition Second : Z := 1000000000.

Definition chooseLeaseTime (t max : Z) : Z :=
  if (t =? 0) || (max <? t) then max else t.

(** A panic that nothing recovers: that of [time.NewTicker], "non-positive
    interval for NewTicker". *)
Inductive Panic : Type := PanicNewTicker.

Section Worker.

Variable d : ddl.

(** [d.isOwner()] *)
Definition isOwner (w : World) : bool * World :=
  let isOwner := ownerManager d (now w) in
  (isOwner, emit (EvIsOwner isOwner) w).

Definition isClosed (w : World) : bool := closed w.

(** [getFirstDDLJob]: the job at index 0 of the handle's queue, or nil. *)
Definition getFirstDDLJob (t : Meta) : option Job + error := GetDDLJob t 0.

(** Modelled from the spec: [delRangeManager.addDelRangeJob] is the
    deferred range-deletion collaborator [ScheduleRangeDeletion(job)]: it
    keeps the job it is given, unless it fails. *)
Definition addDelRangeJob (job : Job) (w : World) : World * option error :=
  match delRangeManager d job with
  | Some err => (w, Some err)
  | None => (keepDelRange job w, None)
  end.

Definition deleteRange (job : Job) (w : World) : World * option error :=
  if Version job <=? currentVersion d then addDelRangeJob job w
  else (w, Some (TErr (errInvalidJobVersion (Version job) (currentVersion d)))).

(** [finishDDLJob]: the [switch job.Type], then the dequeue, the
    completion stamp and the history entry. *)
Definition finishDDLJob (t : Meta) (job : Job) (w : World)
  : World * Meta * Job * option error :=
  let '(w, err) :=
    match Type_ job with
    | ActionAddIndex =>
        match State job with
        | JobStateRollbackDone => deleteRange job w
        | _ => (w, None)
        end
    | ActionDropSchema | ActionDropTable | ActionTruncateTable | ActionDropIndex =>
        deleteRange job w
    | _ => (w, None)
    end in
  match err with
  | Some err => (w, t, job, Some err)
  | None =>
      match DeQueueDDLJob t with
      | (t, inr err) => (w, t, job, Some err)
      | (t, inl _) =>
          let job := setBinlogInfo (setFinishedTS (StartTS t) (BinlogInfo job)) job in
          let '(t, err) := AddHistoryDDLJob t job in
          (w, t, job, err)
      end
  end.

Definition handleUpdateJobError (t : Meta) (job : Job) (err : option error)
    (w : World) : World * Meta * Job * option error :=
  match err with
  | None => (w, t, job, None)
  | Some e =>
      if isEntryTooLarge e then
        let job := setBinlogInfo (Clean (BinlogInfo job)) job in
        let job := setError (Some (toTError e)) job in
        let job := setSchemaState StateNone job in
        let job := setState JobStateCancelled job in
        finishDDLJob t job w
      else (w, t, job, Some e)
  end.

Definition updateDDLJob (t : Meta) (job : Job) (meetErr : bool)
  : Meta * option error :=
  let updateRawArgs :=
    if meetErr && (bool_decide (RawArgs job <> None) && bool_decide (Args job = None))
    then false else true in
  UpdateDDLJob (encodeArgs d) t 0 job updateRawArgs.

(** The [switch job.Type] of [runDDLJob]. *)
Definition runHandler (t : Meta) (job : Job) : Meta * Job * Z * option error :=
  match Type_ job with
  | ActionCreateSchema => onCreateSchema d t job
  | ActionDropSchema => onDropSchema d t job
  | ActionCreateTable => onCreateTable d t job
  | ActionDropTable => onDropTable d t job
  | ActionAddColumn => onAddColumn d t job
  | ActionDropColumn => onDropColumn d t job
  | ActionModifyColumn => onModifyColumn d t job
  | ActionAddIndex => onCreateIndex d t job
  | ActionDropIndex => onDropIndex d t job
  | ActionAddForeignKey => onCreateForeignKey d t job
  | ActionDropForeignKey => onDropForeignKey d t job
  | ActionTruncateTable => onTruncateTable d t job
  | ActionRebaseAutoID => onRebaseAutoID d t job
  | ActionRenameTable => onRenameTable d t job
  | ActionSetDefaultValue => onSetDefaultValue d t job
  | ActionShardRowID => onShardRowID d t job
  | ActionModifyTableComment => onModifyTableComment d t job
  | ActionRenameIndex => onRenameIndex d t job
  | ActionOther _ =>
      (t, setState JobStateCancelled job, 0, Some (TErr errInvalidDDLJob))
  end.

(** The guard of the cancelling branch: the job is backfilling an index. *)
Definition isBackfilling (job : Job) : bool :=
  match Type_ job, SchemaState_ job with
  | ActionAddIndex, StateWriteReorganization => negb (SnapshotVer job =? 0)
  | _, _ => false
  end.

(** The part of [runDDLJob] after the cancelling branch: the move to
    Running, the handler, and the recording of its error. *)
Definition runDDLJob_dispatch (t : Meta) (job : Job) (w : World)
  : World * Meta * Job * Z * option error :=
  let job :=
    if negb (IsRollingback job) && negb (IsCancelling job)
    then setState JobStateRunning job else job in
  let '(t, job, ver, err) := runHandler t job in
  let job :=
    match err with
    | Some e => incErrorCount (setError (Some (toTError e)) job)
    | None => job
    end in
  (w, t, job, ver, err).

Definition runDDLJob (t : Meta) (job : Job) (w : World)
  : World * Meta * Job * Z * option error :=
  if IsFinished job then (w, t, job, 0, None)
  else if IsCancelling job then
    if isBackfilling job
    then runDDLJob_dispatch t job (emit EvNotifyReorgCancel w)
    else
      let job := setState JobStateCancelled job in
      let job := setError (Some errCancelledDDLJob) job in
      let job := incErrorCount job in
      (w, t, job, 0, None)
  else runDDLJob_dispatch t job w.

Definition waitSchemaChanged (ctx : Context) (waitTime : Z)
    (latestSchemaVersion : Z) (w : World) : World :=
  if waitTime =? 0 then w
  else if latestSchemaVersion =? 0 then w
  else
    let ctx := match ctx with ctxNil => ctxTimeout waitTime | _ => ctx end in
    let err := OwnerUpdateGlobalVersion (schemaSyncer d) (now w) ctx latestSchemaVersion in
    let w := emit (EvOwnerUpdateGlobalVersion latestSchemaVersion) w in
    if match err with Some e => isDeadlineExceeded e | None => false end then w
    else
      let err := OwnerCheckAllVersions (schemaSyncer d) (now w) ctx latestSchemaVersion in
      let w := emit (EvOwnerCheckAllVersions latestSchemaVersion) w in
      match err with
      | Some e => if isDeadlineExceeded e then w else emit EvCtxDone w
      | None => w
      end.

(** The states after which other servers must load the schema. *)
Definition needsSchemaWait (job : Job) : bool :=
  IsRunning job || IsRollingback job || IsDone job || IsRollbackDone job.

Definition waitSchemaSynced (job : Job) (waitTime : Z) (w : World) : World :=
  if negb (IsRunning job) && negb (IsRollingback job)
     && negb (IsDone job) && negb (IsRollbackDone job)
  then w
  else
    let ctx := ctxTimeout waitTime in
    let '(latestSchemaVersion, err) := MustGetGlobalVersion (schemaSyncer d) (now w) ctx in
    let w := emit EvMustGetGlobalVersion w in
    match err with
    | Some _ => w
    | None => waitSchemaChanged ctx waitTime latestSchemaVersion w
    end.

(** [cleanAddIndexQueueJobs]: the loop body runs once per unit of fuel;
    [None] is a loop that has not returned yet. *)
Fixpoint cleanAddIndexQueueJobs_loop (fuel : nat) (m : Meta) (w : World)
  : option (World * Meta * option error) :=
  match fuel with
  | O => None
  | S fuel =>
      match getFirstDDLJob m with
      | inr err => Some (w, m, Some err)
      | inl None => Some (emit (EvLog LogCleaningTakesTime) w, m, None)
      | inl (Some job) =>
          let w := emit (EvLog (LogCleaningJob (ID job))) w in
          if bool_decide (SchemaState_ job = StatePublic)
             || bool_decide (SchemaState_ job = StateNone)
          then
            let '(w, job) :=
              if bool_decide (SchemaState_ job = StateNone)
              then (w, setState JobStateCancelled job)
              else (emit (EvSetDDLBinlog (ID job) (Query job)) w,
                    setState JobStateSynced job) in
            let '(w, m, job, err) := finishDDLJob m job w in
            match err with
            | Some err => Some (w, m, Some err)
            | None => cleanAddIndexQueueJobs_loop fuel m w
            end
          else
              (* the job is in neither state: roll it back *)
              let schemaID := SchemaID job in
              match getTableInfo d m job schemaID with
              | inr err => Some (w, m, Some err)
              | inl tblInfo =>
                  match DecodeArgs d job with
                  | (_, inr err) => Some (w, m, Some err)
                  | (job, inl (unique, indexName)) =>
                      let indexInfo := findIndexByName d indexName (Indices tblInfo) in
                      let '(m, job, _, err) :=
                        convert2RollbackJob d m job tblInfo indexInfo in
                      let '(m, err) :=
                        match err with
                        | None =>
                            match DeQueueDDLJob m with
                            | (m, inr err) => (m, Some err)
                            | (m, inl _) => (m, None)
                            end
                        | Some err => (m, Some err)
                        end in
                      match err with
                      | Some err => Some (w, m, Some err)
                      | None =>
                          let m := SetJobListKey DefaultJobListKey m in
                          let '(m, err) := EnQueueDDLJob m job in
                          let m := SetJobListKey AddIndexJobListKey m in
                          match err with
                          | Some err => Some (w, m, Some err)
                          | None => cleanAddIndexQueueJobs_loop fuel m w
                          end
                      end
                  end
              end
      end
  end.

Definition cleanAddIndexQueueJobs (fuel : nat) (txn : Store) (startTS : Z)
    (w : World) : option (World * Meta * option error) :=
  let m := NewMeta txn startTS in
  let m := SetJobListKey AddIndexJobListKey m in
  cleanAddIndexQueueJobs_loop fuel m w.

(** The closure that [handleDDLJobQueue] runs in a new transaction.  It
    returns the world, the transaction's view of the store, and the
    variables it shares with the loop: [once], [job], [schemaVer],
    [runJobErr]; last comes the closure's own error. *)
Definition handleDDLJobQueue_txn (fuel : nat) (shouldCleanJobs once : bool)
    (waitTime : Z) (tx : Store) (startTS : Z) (w : World)
  : option (World * Store * bool * option Job * Z * option error * option error) :=
  let '(owner, w) := isOwner w in
  if negb owner then Some (w, tx, once, None, 0, None, None)
  else if shouldCleanJobs then
    match cleanAddIndexQueueJobs fuel tx startTS w with
    | None => None
    | Some (w, m, err) => Some (w, txn m, once, None, 0, None, err)
    end
  else
    let t := NewMeta tx startTS in
    match getFirstDDLJob t with
    | inr err => Some (w, tx, once, None, 0, None, Some err)
    | inl None => Some (w, tx, once, None, 0, None, None)
    | inl (Some job) =>
        if once then
          let w := waitSchemaSynced job waitTime w in
          Some (w, tx, false, Some job, 0, None, None)
        else if IsDone job || IsRollbackDone job then
          let w := emit (EvSetDDLBinlog (ID job) (Query job)) w in
          let job :=
            if negb (IsRollbackDone job) then setState JobStateSynced job else job in
          let '(w, t, job, err) := finishDDLJob t job w in
          Some (w, txn t, once, Some job, 0, None, err)
        else
          let w := emit (EvOnJobRunBefore job) w in
          let '(w, t, job, schemaVer, runJobErr) := runDDLJob t job w in
          if IsCancelled job then
            let '(w, t, job, err) := finishDDLJob t job w in
            Some (w, txn t, once, Some job, schemaVer, runJobErr, err)
          else
            let '(t, err) := updateDDLJob t job (bool_decide (runJobErr <> None)) in
            let '(w, t, job, err) := handleUpdateJobError t job err w in
            Some (w, txn t, once, Some job, schemaVer, runJobErr, err)
    end.

(** Modelled from the spec: [kv.RunInNewTxn] commits what the closure did
    to the store when the closure returns nil and the store accepts the
    commit, and drops it otherwise. *)
Definition endTxn (tx : Store) (err : option error) (w : World)
  : World * option error :=
  match err with
  | Some e => (w, Some e)
  | None =>
      match fault tx OpCommit with
      | Some e => (w, Some e)
      | None => (setStore tx w, None)
      end
  end.

Inductive IterOutcome : Type :=
| IterReturn (err : option error)
| IterContinue.

(** One iteration of the [for] loop of [handleDDLJobQueue]. *)
Definition handleDDLJobQueue_iter (fuel : nat) (shouldCleanJobs once : bool)
    (w : World) : option (IterOutcome * bool * World) :=
  if isClosed w then Some (IterReturn None, once, w)
  else
    let waitTime := wrap64 (2 * lease d) in
    match handleDDLJobQueue_txn fuel shouldCleanJobs once waitTime
            (store w) (beginTS d (now w)) w with
    | None => None
    | Some (w, tx, once, job, schemaVer, runJobErr, err) =>
        let '(w, err) := endTxn tx err w in
        let w := if bool_decide (runJobErr <> None) then emit EvSleep w else w in
        match err with
        | Some err => Some (IterReturn (Some err), once, w)
        | None =>
            match job with
            | None => Some (IterReturn None, once, w)
            | Some job =>
                let w := emit (EvOnJobUpdated job) w in
                let w :=
                  if IsRunning job || IsRollingback job || IsDone job || IsRollbackDone job
                  then waitSchemaChanged ctxNil waitTime schemaVer w else w in
                let w := if IsSynced job then emit EvNotifyJobDone w else w in
                Some (IterContinue, once, w)
            end
        end
    end.

Fixpoint handleDDLJobQueue_loop (fuel : nat) (shouldCleanJobs once : bool)
    (w : World) : option (option error * World) :=
  match fuel with
  | O => None
  | S fuel' =>
      match handleDDLJobQueue_iter fuel shouldCleanJobs once w with
      | None => None
      | Some (IterReturn err, _, w) => Some (err, w)
      | Some (IterContinue, once, w) =>
          handleDDLJobQueue_loop fuel' shouldCleanJobs once w
      end
  end.

(** [handleDDLJobQueue]: [once := true], then the loop.  [None] is a pass
    that has not returned within [fuel] iterations. *)
Definition handleDDLJobQueue (fuel : nat) (shouldCleanJobs : bool) (w : World)
  : option (option error * World) :=
  handleDDLJobQueue_loop fuel shouldCleanJobs true w.

(** The [for] loop of [onDDLWorker]: one pass per signal of the ticker or
    the job channel, until the quit channel fires.  The result is the flag
    and the world when the signals are used up. *)
Fixpoint onDDLWorker_loop (fuel : nat) (signals : list Signal)
    (shouldCleanJobs : bool) (w : World) : option (bool * World) :=
  match signals with
  | [] => Some (shouldCleanJobs, w)
  | QuitCh :: _ => Some (shouldCleanJobs, w)
  | _ :: signals =>
      match handleDDLJobQueue fuel shouldCleanJobs w with
      | None => None
      | Some (Some _, w) => onDDLWorker_loop fuel signals shouldCleanJobs w
      | Some (None, w) =>
          if shouldCleanJobs
          then onDDLWorker_loop fuel signals false (emit (EvLog LogCleaningFinished) w)
          else onDDLWorker_loop fuel signals shouldCleanJobs w
      end
  end.

(** [checkTime] of [onDDLWorker], the period of its ticker:
    [chooseLeaseTime(2*d.lease, 1*time.Second)]. *)
Definition checkTime : Z :=
  chooseLeaseTime (wrap64 (2 * lease d)) (wrap64 (1 * Second)).

(** [onDDLWorker].  [time.NewTicker] panics on a period that is not
    positive, and it is called before the function that recovers is
    deferred: the worker then ends in that panic, [inr], without a single
    pass.  Otherwise the loop runs, starting with [shouldCleanJobs] set. *)
Definition onDDLWorker (fuel : nat) (signals : list Signal) (w : World)
  : option (bool * World) + Panic :=
  if checkTime <=? 0 then inr PanicNewTicker
  else inl (onDDLWorker_loop fuel signals true w).

End Worker.

(** ** Sample jobs, stores and workers *)

Definition sampleInfo : HistoryInfo :=
  {| SchemaVersion := 9; DBInfo := Some 1; BinlogTableInfo := None; FinishedTS := 0 |}.

Definition sampleJob (id : Z) (ty : ActionType) (tableID : Z) (st : JobState)
    (ss : SchemaState) : Job :=
  {| ID := id; Type_ := ty; SchemaID := 1; TableID := tableID; State := st;
     SchemaState_ := ss; Args := None; RawArgs := Some "[true,idx]"%string;
     DependencyID := 0; Error := None; ErrorCount := 0; SnapshotVer := 0;
     JobStartTS := 40; Query := "ddl"%string; BinlogInfo := sampleInfo;
     Version := 1 |}.

Definition setSnapshotVer (v : Z) (j : Job) : Job :=
  {| ID := ID j; Type_ := Type_ j; SchemaID := SchemaID j; TableID := TableID j;
     State := State j; SchemaState_ := SchemaState_ j; Args := Args j;
     RawArgs := RawArgs j; DependencyID := DependencyID j; Error := Error j;
     ErrorCount := ErrorCount j; SnapshotVer := v;
     JobStartTS := JobStartTS j; Query := Query j; BinlogInfo := BinlogInfo j;
     Version := Version j |}.

Definition setVersion (v : Z) (j : Job) : Job :=
  {| ID := ID j; Type_ := Type_ j; SchemaID := SchemaID j; TableID := TableID j;
     State := State j; SchemaState_ := SchemaState_ j; Args := Args j;
     RawArgs := RawArgs j; DependencyID := DependencyID j; Error := Error j;
     ErrorCount := ErrorCount j; SnapshotVer := SnapshotVer j;
     JobStartTS := JobStartTS j; Query := Query j; BinlogInfo := BinlogInfo j;
     Version := v |}.

Definition noFault : MetaOp -> option error := fun _ => None.

Definition sampleStore (current legacy : list Job) (faults : MetaOp -> option error)
  : Store :=
  {| defaultJobs := current; addIndexJobs := legacy; historyJobs := ∅;
     schemaVersion := 9; fault := faults; listOrder := id |}.


Definition sampleWorld (s : Store) : World :=
  {| store := s; closed := false; delRangeJobs := []; trace := [] |}.

(** A syncer on which every call succeeds at once. *)
Definition sampleSyncer : SchemaSyncer :=
  {| OwnerUpdateGlobalVersion := fun _ _ _ => None;
     OwnerCheckAllVersions := fun _ _ _ => None;
     MustGetGlobalVersion := fun _ _ => (9, None) |}.

(** A handler that leaves the job as the runner hands it over and reports
    schema version [ver]. *)
Definition handlerKeep (ver : Z) : Handler := fun t job => (t, job, ver, None).

(** A handler that completes the job: a rollback when the job is being
    cancelled or rolled back, the change itself otherwise. *)
Definition handlerFinish (ver : Z) : Handler :=
  fun t job =>
    if IsCancelling job || IsRollingback job
    then (t, setState JobStateRollbackDone job, ver, None)
    else (t, setState JobStateDone job, ver, None).

Definition sampleTable : TableInfo :=
  {| tblID := 3; Indices := [ {| idxName := "idx"; idxState := StateWriteOnly |} ] |}.

(** The conversion used by the samples: the job becomes a rolling-back job
    in the delete-only phase. *)
Definition sampleConvert (m : Meta) (job : Job) (tbl : TableInfo)
    (idx : option IndexInfo) : Meta * Job * Z * option error :=
  (m, setSchemaState StateDeleteOnly (setState JobStateRollingback job), 10, None).

Definition sampleDDL (leaseTime : Z) (owner : nat -> bool) (h : Handler) : ddl :=
  {| lease := leaseTime; currentVersion := 1; ownerManager := owner;
     schemaSyncer := sampleSyncer; delRangeManager := fun _ => None;
     beginTS := fun n => 100 + Z.of_nat n;
     encodeArgs := fun _ => "null"%string;
     onCreateSchema := h; onDropSchema := h; onCreateTable := h;
     onDropTable := h; onAddColumn := h; onDropColumn := h;
     onModifyColumn := h; onCreateIndex := h; onDropIndex := h;
     onCreateForeignKey := h; onDropForeignKey := h; onTruncateTable := h;
     onRebaseAutoID := h; onRenameTable := h; onSetDefaultValue := h;
     onShardRowID := h; onModifyTableComment := h; onRenameIndex := h;
     getTableInfo := fun _ _ _ => inl sampleTable;
     DecodeArgs := fun job => (job, inl (true, "idx"%string));
     findIndexByName := fun name l => head (filter (fun i => idxName i = name) l);
     convert2RollbackJob := sampleConvert |}.

(** Two jobs conflict, in the samples, when they act on the same table. *)
Definition sameTable (curJob job : Job) : bool + error :=
  inl (bool_decide (SchemaID curJob = SchemaID job /\ TableID curJob = TableID job)).

(** The jobs for which [finishDDLJob] calls [deleteRange]. *)
Definition needsDeleteRange (job : Job) : bool :=
  match Type_ job with
  | ActionAddIndex => bool_decide (State job = JobStateRollbackDone)
  | ActionDropSchema | ActionDropTable | ActionTruncateTable | ActionDropIndex => true
  | _ => false
  end.

(** [job.BinlogInfo.FinishedTS = t.StartTS] *)
Definition stampFinished (t : Meta) (job : Job) : Job :=
  setBinlogInfo (setFinishedTS (StartTS t) (BinlogInfo job)) job.

(** The job as [handleUpdateJobError] forces it on an oversized record. *)
Definition forceCancelled (job : Job) : Job :=
  setState JobStateCancelled
    (setSchemaState StateNone
       (setError (Some ErrEntryTooLarge)
          (setBinlogInfo (Clean (BinlogInfo job)) job))).

(** Finalization in the order in which section 4.7 words it: the dequeue
    first, then the deferred cleanup, the completion stamp and the history
    entry.  It is compared with [finishDDLJob] below. *)
Definition specFinalize (d : ddl) (t : Meta) (job : Job) (w : World)
  : World * Meta * Job * option error :=
  match DeQueueDDLJob t with
  | (t, inr err) => (w, t, job, Some err)
  | (t, inl _) =>
      let '(w, err) :=
        if needsDeleteRange job then deleteRange d job w else (w, None) in
      match err with
      | Some err => (w, t, job, Some err)
      | None =>
          let job := stampFinished t job in
          let '(t, err) := AddHistoryDDLJob t job in
          (w, t, job, err)
      end
  end.

(** A store that refuses one operation. *)
Definition faultOn (op : MetaOp) (e : error) : MetaOp -> option error :=
  fun op' => if bool_decide (op' = op) then Some e else None.

(** ** Reading the trace *)

Fixpoint countEvents (p : Event -> bool) (l : list Event) : nat :=
  match l with
  | [] => 0%nat
  | e :: l => ((if p e then 1 else 0) + countEvents p l)%nat
  end.

(** The owner publishes a schema version and waits for the other servers:
    the first call of [waitSchemaChanged] to the syncer. *)
Definition isSyncWait (e : Event) : bool :=
  match e with EvOwnerUpdateGlobalVersion _ => true | _ => false end.

(** The resynchronization of [waitSchemaSynced] reads the global version. *)
Definition isResync (e : Event) : bool :=
  match e with EvMustGetGlobalVersion => true | _ => false end.

(** A job is handed to the runner right after the [OnJobRunBefore] hook. *)
Definition isDispatch (e : Event) : bool :=
  match e with EvOnJobRunBefore _ => true | _ => false end.

(** The legacy-queue drain ran to the end of the legacy queue. *)
Definition isMigration (e : Event) : bool :=
  match e with EvLog LogCleaningTakesTime => true | _ => false end.

(** The owner incarnations seen in a trace: the number of times the answer
    of the owner manager turns from false (or from nothing) to true. *)
Fixpoint incarnationsFrom (wasOwner : bool) (l : list Event) : nat :=
  match l with
  | [] => 0%nat
  | EvIsOwner b :: l =>
      ((if b && negb wasOwner then 1 else 0) + incarnationsFrom b l)%nat
  | _ :: l => incarnationsFrom wasOwner l
  end.

Definition ownerIncarnations (l : list Event) : nat := incarnationsFrom false l.

(** [w'] continues the trace of [w] with events that all satisfy [P]. *)
Definition emitsOnly (P : Event -> Prop) (w w' : World) : Prop :=
  exists evs, trace w' = trace w ++ evs /\ Forall P evs.

(** What the legacy-queue drain can emit. *)
Definition evClean (e : Event) : Prop :=
  match e with EvLog _ | EvSetDDLBinlog _ _ => True | _ => False end.

(** What [waitSchemaChanged] can emit. *)
Definition evSyncer (e : Event) : Prop :=
  match e with
  | EvOwnerUpdateGlobalVersion _ | EvOwnerCheckAllVersions _ | EvCtxDone => True
  | _ => False
  end.

(** What an iteration of [handleDDLJobQueue] can emit once its
    transaction has ended. *)
Definition evAfterTxn (e : Event) : Prop :=
  match e with
  | EvSleep | EvOnJobUpdated _ | EvNotifyJobDone => True
  | _ => evSyncer e
  end.

(** What the transaction of an iteration can emit, by the migration flag
    and by [once]. *)
Definition evTxn (shouldCleanJobs once : bool) (e : Event) : Prop :=
  match e with
  | EvIsOwner _ | EvSetDDLBinlog _ _ => True
  | EvLog _ => shouldCleanJobs = true
  | EvOnJobRunBefore _ | EvNotifyReorgCancel =>
      shouldCleanJobs = false /\ once = false
  | EvMustGetGlobalVersion | EvOwnerUpdateGlobalVersion _
  | EvOwnerCheckAllVersions _ | EvCtxDone =>
      shouldCleanJobs = false /\ once = true
  | _ => False
  end.

Definition notResync (e : Event) : Prop := isResync e = false.

Definition notDispatch (e : Event) : Prop := isDispatch e = false.

Definition notMigration (e : Event) : Prop := isMigration e = false.

(** ** The legacy-queue drain, job by job *)

Definition isPublicOrNone (job : Job) : bool :=
  bool_decide (SchemaState_ job = StatePublic)
  || bool_decide (SchemaState_ job = StateNone).

(** A legacy job as the drain archives it: Cancelled when it never
    started, Synced when it was public, with the completion stamp. *)
Definition legacyFinalized (startTS : Z) (job : Job) : Job :=
  setBinlogInfo (setFinishedTS startTS (BinlogInfo job))
    (setState (if bool_decide (SchemaState_ job = StateNone)
               then JobStateCancelled else JobStateSynced) job).

(** [job'] is what [convert2RollbackJob] makes of the legacy job [job],
    once its table and its arguments have been read. *)
Definition legacyConverted (d : ddl) (job job' : Job) : Prop :=
  exists m tbl j1 unique indexName m' ver,
    getTableInfo d m job (SchemaID job) = inl tbl
    /\ DecodeArgs d job = (j1, inl (unique, indexName))
    /\ convert2RollbackJob d m j1 tbl (findIndexByName d indexName (Indices tbl))
       = (m', job', ver, None).

(** The archive after the jobs of [l] were added in order. *)
Definition archiveAll (startTS : Z) (h : gmap Z Job) (l : list Job) : gmap Z Job :=
  foldl (fun h job => <[ID job := legacyFinalized startTS job]> h) h l.

(** [m'] holds the queues, the archive and the handle data of [m]. *)
Definition queuesKept (m m' : Meta) : Prop :=
  jobListKey m' = jobListKey m /\ StartTS m' = StartTS m
  /\ defaultJobs (txn m') = defaultJobs (txn m)
  /\ addIndexJobs (txn m') = addIndexJobs (txn m)
  /\ historyJobs (txn m') = historyJobs (txn m).

(** The conversion to a rollback job rewrites the job and the schema, not
    the job queues or the archive. *)
Definition convertKeepsQueues (d : ddl) : Prop :=
  forall m job tbl idx,
    queuesKept m (fst (fst (fst (convert2RollbackJob d m job tbl idx)))).

(** The store accepts the operations of the drain. *)
Definition drainOpsAccepted (s : Store) : Prop :=
  fault s OpGetDDLJob = None /\ fault s OpDeQueueDDLJob = None
  /\ fault s OpEnQueueDDLJob = None /\ fault s OpAddHistoryDDLJob = None.

(** The collaborators of the conversion succeed: the table is found, the
    arguments decode, the conversion returns no error and leaves the
    store's answers as they are. *)
Definition conversionSucceeds (d : ddl) : Prop :=
  (forall m job, exists tbl, getTableInfo d m job (SchemaID job) = inl tbl)
  /\ (forall job, exists j1 r, DecodeArgs d job = (j1, inl r))
  /\ (forall m job tbl idx,
        snd (convert2RollbackJob d m job tbl idx) = None
        /\ fault (txn (fst (fst (fst (convert2RollbackJob d m job tbl idx)))))
           = fault (txn m)).

(** ** The rest of ddl_worker.go *)

Definition setID (id : Z) (j : Job) : Job :=
  {| ID := id; Type_ := Type_ j; SchemaID := SchemaID j; TableID := TableID j;
     State := State j; SchemaState_ := SchemaState_ j; Args := Args j;
     RawArgs := RawArgs j; DependencyID := DependencyID j; Error := Error j;
     ErrorCount := ErrorCount j; SnapshotVer := SnapshotVer j;
     JobStartTS := JobStartTS j; Query := Query j; BinlogInfo := BinlogInfo j;
     Version := Version j |}.

Definition setJobStartTS (ts : Z) (j : Job) : Job :=
  {| ID := ID j; Type_ := Type_ j; SchemaID := SchemaID j; TableID := TableID j;
     State := State j; SchemaState_ := SchemaState_ j; Args := Args j;
     RawArgs := RawArgs j; DependencyID := DependencyID j; Error := Error j;
     ErrorCount := ErrorCount j; SnapshotVer := SnapshotVer j;
     JobStartTS := ts; Query := Query j; BinlogInfo := BinlogInfo j;
     Version := Version j |}.

Definition setQuery (q : string) (j : Job) : Job :=
  {| ID := ID j; Type_ := Type_ j; SchemaID := SchemaID j; TableID := TableID j;
     State := State j; SchemaState_ := SchemaState_ j; Args := Args j;
     RawArgs := RawArgs j; DependencyID := DependencyID j; Error := Error j;
     ErrorCount := ErrorCount j; SnapshotVer := SnapshotVer j;
     JobStartTS := JobStartTS j; Query := q; BinlogInfo := BinlogInfo j;
     Version := Version j |}.

(** [t.GenGlobalID()], a method of package meta: the handle after the
    call, the ID it returns and its error. *)
Definition GlobalIDGen : Type := Meta -> Meta * Z * option error.

(** The closure that [addDDLJob] runs in a new transaction; [startTS] is
    [txn.StartTS()]. *)
Definition addDDLJob_txn (GenGlobalID : GlobalIDGen) (tx : Store) (startTS : Z)
    (job : Job) : Store * Job * option error :=
  let t := NewMeta tx startTS in
  let '(t, id, err) := GenGlobalID t in
  let job := setID id job in
  match err with
  | Some err => (txn t, job, Some err)
  | None =>
      let job := setJobStartTS startTS job in
      let '(t, err) := EnQueueDDLJob t job in
      (txn t, job, err)
  end.

(** [addDDLJob]; [query] is the value of [sessionctx.QueryString] in the
    session context, if it is a string.  The transaction is [endTxn], one
    run of the closure. *)
Definition addDDLJob (d : ddl) (GenGlobalID : GlobalIDGen) (query : option string)
    (job : Job) (w : World) : World * Job * option error :=
  let job := setVersion (currentVersion d) job in
  let job := setQuery (default EmptyString query) job in
  let '(tx, job, err) :=
    addDDLJob_txn GenGlobalID (store w) (beginTS d (now w)) job in
  let '(w, err) := endTxn tx err w in
  (w, job, err).

(** [model.SchemaDiff], with the fields that [updateSchemaVersion] sets. *)
Record SchemaDiff : Type := {
  diffVersion : Z;
  diffType : ActionType;
  diffSchemaID : Z;
  diffTableID : Z;
  diffOldTableID : Z;
  diffOldSchemaID : Z
}.

(** [updateSchemaVersion].  [GenSchemaVersion] and [SetSchemaDiff] are
    methods of package meta; [DecodeID] is [job.DecodeArgs(&x)] for one
    int64 [x]: the job with its arguments decoded, the value written to
    [x], and the error.  The diff is built with [Type] and [SchemaID] read
    before the arguments are decoded, and the table ID read after. *)
Definition updateSchemaVersion
    (GenSchemaVersion : Meta -> Meta * Z * option error)
    (SetSchemaDiff : Meta -> SchemaDiff -> Meta * option error)
    (DecodeID : Job -> Job * Z * option error)
    (t : Meta) (job : Job) : Meta * Job * Z * option error :=
  let '(t, schemaVersion, err) := GenSchemaVersion t in
  match err with
  | Some err => (t, job, 0, Some err)
  | None =>
      match Type_ job with
      | ActionTruncateTable =>
          let '(job1, tableID, err) := DecodeID job in
          match err with
          | Some err => (t, job1, 0, Some err)
          | None =>
              let diff :=
                {| diffVersion := schemaVersion; diffType := Type_ job;
                   diffSchemaID := SchemaID job; diffTableID := tableID;
                   diffOldTableID := TableID job1; diffOldSchemaID := 0 |} in
              let '(t, err) := SetSchemaDiff t diff in
              (t, job1, schemaVersion, err)
          end
      | ActionRenameTable =>
          let '(job1, oldSchemaID, err) := DecodeID job in
          match err with
          | Some err => (t, job1, 0, Some err)
          | None =>
              let diff :=
                {| diffVersion := schemaVersion; diffType := Type_ job;
                   diffSchemaID := SchemaID job; diffTableID := TableID job1;
                   diffOldTableID := 0; diffOldSchemaID := oldSchemaID |} in
              let '(t, err) := SetSchemaDiff t diff in
              (t, job1, schemaVersion, err)
          end
      | _ =>
          let diff :=
            {| diffVersion := schemaVersion; diffType := Type_ job;
               diffSchemaID := SchemaID job; diffTableID := TableID job;
               diffOldTableID := 0; diffOldSchemaID := 0 |} in
          let '(t, err) := SetSchemaDiff t diff in
          (t, job, schemaVersion, err)
      end
  end.

(** The handlers leave the legacy queue, and the queue their handle works
    on, alone. *)
Definition handlersKeepLegacy (d : ddl) : Prop :=
  forall t job,
    addIndexJobs (txn (fst (fst (fst (runHandler d t job))))) = addIndexJobs (txn t)
    /\ jobListKey (fst (fst (fst (runHandler d t job)))) = jobListKey t.

(** [GenGlobalID] leaves the current queue, the handle and the store's
    answers alone. *)
Definition genKeepsQueue (GenGlobalID : GlobalIDGen) : Prop :=
  forall t,
    defaultJobs (txn (fst (fst (GenGlobalID t)))) = defaultJobs (txn t)
    /\ jobListKey (fst (fst (GenGlobalID t))) = jobListKey t
    /\ fault (txn (fst (fst (GenGlobalID t)))) = fault (txn t).



(** ** The dependency resolver: claim C1 *)

Lemma buildJobDependence_range_first
    (IsDependentOn : Job -> Job -> bool + error) (jobs : list Job) (curJob curJob' : Job) :
  buildJobDependence_range IsDependentOn jobs curJob = (curJob', None) ->
  (curJob' = curJob
   /\ forall job, job ∈ jobs -> ID job <= ID curJob ->
                  IsDependentOn curJob job = inl false)
  \/ (exists pre job post,
        jobs = pre ++ job :: post
        /\ ID job <= ID curJob
        /\ IsDependentOn curJob job = inl true
        /\ curJob' = setDependencyID (ID job) curJob
        /\ forall job', job' ∈ pre -> ID job' <= ID curJob ->
                        IsDependentOn curJob job' = inl false).
Proof.
  induction jobs as [|job rest IH]; simpl.
  - intros [= <-]. left. split; [reflexivity|].
    intros job Hin. apply elem_of_nil in Hin. contradiction.
  - destruct (Z.ltb_spec (ID curJob) (ID job)) as [Hlt|Hle].
    + intros Hrec. destruct (IH Hrec) as [[-> Hall] | (pre & j & post & -> & H)].
      * left. split; [reflexivity|]. intros j Hin Hj.
        apply elem_of_cons in Hin as [->|Hin]; [lia | auto].
      * right. exists (job :: pre), j, post. split; [reflexivity|].
        destruct H as (H1 & H2 & H3 & H4). repeat split; auto.
        intros j' Hin Hj'. apply elem_of_cons in Hin as [->|Hin]; [lia | auto].
    + destruct (IsDependentOn curJob job) as [[|]|e] eqn:Hdep; [| |discriminate].
      * intros [= <-]. right. exists [], job, rest. repeat split; auto.
        intros j' Hin. apply elem_of_nil in Hin. contradiction.
      * intros Hrec. destruct (IH Hrec) as [[-> Hall] | (pre & j & post & -> & H)].
        -- left. split; [reflexivity|]. intros j Hin Hj.
           apply elem_of_cons in Hin as [->|Hin]; auto.
        -- right. exists (job :: pre), j, post. split; [reflexivity|].
           destruct H as (H1 & H2 & H3 & H4). repeat split; auto.
           intros j' Hin Hj'. apply elem_of_cons in Hin as [->|Hin]; auto.
Qed.








(** ** The runner on a cancelling job: claim C3 *)

Lemma isBackfilling_true (job : Job) :
  isBackfilling job = true <->
  Type_ job = ActionAddIndex /\ SchemaState_ job = StateWriteReorganization
  /\ SnapshotVer job <> 0.
Proof.
  unfold isBackfilling.
  destruct (Type_ job), (SchemaState_ job); simpl;
    try (split; [discriminate | intros (? & ? & ?); discriminate]).
  rewrite negb_true_iff, Z.eqb_neq. tauto.
Qed.

Lemma isBackfilling_false (job : Job) :
  isBackfilling job = false <->
  ~ (Type_ job = ActionAddIndex /\ SchemaState_ job = StateWriteReorganization
     /\ SnapshotVer job <> 0).
Proof.
  rewrite <- isBackfilling_true. destruct (isBackfilling job); naive_solver.
Qed.

Lemma IsCancelling_not_finished (job : Job) :
  IsCancelling job = true -> IsFinished job = false.
Proof.
  unfold IsCancelling, IsFinished, IsDone, IsRollbackDone, IsCancelled.
  destruct (State job); done.
Qed.

(** C3, as the claim states it, fails: a cancelling AddIndex job that is
    still in the write-only phase carries SnapshotVer 7, yet the runner
    cancels it on the spot: no signal reaches the reorg task and the
    handler, which would have rolled the job back, is not run. *)
Lemma runDDLJob_snapshot_not_sole_condition :
  let d := sampleDDL 1 (fun _ => true) (handlerFinish 5) in
  let job := setSnapshotVer 7
               (sampleJob 8 ActionAddIndex 3 JobStateCancelling StateWriteOnly) in
  let t := NewMeta (sampleStore [job] [] noFault) 100 in
  let w := sampleWorld (sampleStore [job] [] noFault) in
  SnapshotVer job <> 0
  /\ IsCancelling job = true
  /\ runDDLJob d t job w =
       (w, t,
        incErrorCount (setError (Some errCancelledDDLJob)
                         (setState JobStateCancelled job)), 0, None)
  /\ runDDLJob d t job w <> runDDLJob_dispatch d t job (emit EvNotifyReorgCancel w).
Proof. repeat split; vm_compute; congruence. Qed.

(** C3, amended.  For a job dispatched in state Cancelling the path is
    decided by the conjunction [Type = AddIndex], [SchemaState =
    WriteReorganization] and [SnapshotVer <> 0].  When it holds the runner
    signals the reorg task and hands the job, still Cancelling, to the
    AddIndex handler, recording the handler's error if there is one.
    When it fails, and so whenever SnapshotVer is 0, the job becomes
    Cancelled with the cancellation error and one more in ErrorCount, and
    the runner returns version 0 and no error without touching the
    transaction or running a handler. *)
Theorem runDDLJob_cancelling (d : ddl) (t : Meta) (job : Job) (w : World) :
  IsCancelling job = true ->
  (Type_ job = ActionAddIndex /\ SchemaState_ job = StateWriteReorganization
   /\ SnapshotVer job <> 0 ->
   runDDLJob d t job w =
     let '(t', job', ver, err) := onCreateIndex d t job in
     (emit EvNotifyReorgCancel w, t',
      match err with
      | Some e => incErrorCount (setError (Some (toTError e)) job')
      | None => job'
      end, ver, err))
  /\ (~ (Type_ job = ActionAddIndex /\ SchemaState_ job = StateWriteReorganization
         /\ SnapshotVer job <> 0) ->
      runDDLJob d t job w =
        (w, t,
         setErrorCount (wrap64 (ErrorCount job + 1))
           (setError (Some errCancelledDDLJob) (setState JobStateCancelled job)),
         0, None))
  /\ (SnapshotVer job = 0 ->
      ~ (Type_ job = ActionAddIndex /\ SchemaState_ job = StateWriteReorganization
         /\ SnapshotVer job <> 0)).
Proof.
  intros Hc. pose proof (IsCancelling_not_finished job Hc) as Hf.
  unfold runDDLJob. rewrite Hf, Hc. split; [|split].
  - intros Hb. pose proof Hb as (Hty & _ & _).
    apply isBackfilling_true in Hb. rewrite Hb.
    unfold runDDLJob_dispatch. rewrite Hc, andb_false_r.
    unfold runHandler. rewrite Hty. reflexivity.
  - intros Hb. apply isBackfilling_false in Hb. rewrite Hb. reflexivity.
  - intros H0 (_ & _ & Hne). contradiction.
Qed.

Lemma runDDLJob_cancelling_witness :
  let d := sampleDDL 1 (fun _ => true) (handlerFinish 5) in
  let job := setSnapshotVer 7
               (sampleJob 8 ActionAddIndex 3 JobStateCancelling
                  StateWriteReorganization) in
  let t := NewMeta (sampleStore [job] [] noFault) 100 in
  let w := sampleWorld (sampleStore [job] [] noFault) in
  IsCancelling job = true
  /\ runDDLJob d t job w =
       (emit EvNotifyReorgCancel w, t, setState JobStateRollbackDone job, 5, None).
Proof.
  intros d job t w. split; [reflexivity|].
  destruct (runDDLJob_cancelling d t job w eq_refl) as (Hyes & _ & _).
  rewrite Hyes; [reflexivity|]. repeat split; [vm_compute; discriminate].
Defined.

(** ** Finalization: claims C10, C8 and C6 *)

Lemma needsDeleteRange_true (job : Job) :
  needsDeleteRange job = true <->
  Type_ job = ActionDropSchema \/ Type_ job = ActionDropTable
  \/ Type_ job = ActionTruncateTable \/ Type_ job = ActionDropIndex
  \/ (Type_ job = ActionAddIndex /\ State job = JobStateRollbackDone).
Proof.
  unfold needsDeleteRange.
  destruct (Type_ job); rewrite ?bool_decide_eq_true; intuition congruence.
Qed.

(** The function seen as its three steps in source order. *)
Lemma finishDDLJob_unfold (d : ddl) (t : Meta) (job : Job) (w : World) :
  finishDDLJob d t job w =
    let '(w1, err) :=
      if needsDeleteRange job then deleteRange d job w else (w, None) in
    match err with
    | Some e => (w1, t, job, Some e)
    | None =>
        match DeQueueDDLJob t with
        | (t1, inr e) => (w1, t1, job, Some e)
        | (t1, inl _) =>
            let '(t2, err) := AddHistoryDDLJob t1 (stampFinished t1 job) in
            (w1, t2, stampFinished t1 job, err)
        end
    end.
Proof.
  unfold finishDDLJob, needsDeleteRange, stampFinished.
  destruct (Type_ job); try reflexivity.
  destruct (State job); reflexivity.
Qed.

Lemma jobList_setJobList (l : list Job) (m : Meta) :
  jobList (setJobList l m) = l.
Proof.
  unfold jobList, setJobList.
  destruct (jobListKey m) eqn:Hk; simpl; rewrite Hk; reflexivity.
Qed.

Lemma setJobList_frame (l : list Job) (m : Meta) :
  historyJobs (txn (setJobList l m)) = historyJobs (txn m)
  /\ StartTS (setJobList l m) = StartTS m
  /\ jobListKey (setJobList l m) = jobListKey m
  /\ fault (txn (setJobList l m)) = fault (txn m)
  /\ schemaVersion (txn (setJobList l m)) = schemaVersion (txn m).
Proof. unfold setJobList. destruct (jobListKey m) eqn:Hk; simpl; repeat split; exact Hk. Qed.

Lemma DeQueueDDLJob_ok (t t1 : Meta) (r : option Job) :
  DeQueueDDLJob t = (t1, inl r) ->
  jobList t1 = tail (jobList t) /\ historyJobs (txn t1) = historyJobs (txn t)
  /\ StartTS t1 = StartTS t /\ jobListKey t1 = jobListKey t
  /\ fault (txn t1) = fault (txn t).
Proof.
  unfold DeQueueDDLJob.
  destruct (fault (txn t) OpDeQueueDDLJob); [discriminate|].
  destruct (jobList t) as [|j rest] eqn:Hl.
  - intros [= <- <-]. rewrite Hl. repeat split.
  - intros [= <- <-]. rewrite jobList_setJobList.
    destruct (setJobList_frame rest t) as (? & ? & ? & ? & ?). repeat split; assumption.
Qed.

Lemma DeQueueDDLJob_err (t t1 : Meta) (e : error) :
  DeQueueDDLJob t = (t1, inr e) ->
  t1 = t /\ fault (txn t) OpDeQueueDDLJob = Some e.
Proof.
  unfold DeQueueDDLJob.
  destruct (fault (txn t) OpDeQueueDDLJob).
  - intros [= <- <-]. done.
  - destruct (jobList t); discriminate.
Qed.

Lemma AddHistoryDDLJob_ok (t t2 : Meta) (job : Job) :
  AddHistoryDDLJob t job = (t2, None) ->
  historyJobs (txn t2) = <[ID job := job]> (historyJobs (txn t))
  /\ jobList t2 = jobList t /\ jobListKey t2 = jobListKey t
  /\ StartTS t2 = StartTS t.
Proof.
  unfold AddHistoryDDLJob.
  destruct (fault (txn t) OpAddHistoryDDLJob); [discriminate|].
  intros [= <-]. unfold jobList. simpl. done.
Qed.

(** C10.  A job whose Version is above the process's current version and
    whose type calls for a range deletion (DropSchema, DropTable,
    TruncateTable, DropIndex, or an AddIndex that is RollbackDone) is not
    finalized: [finishDDLJob] returns the invalid-job-version error before
    the dequeue, so the transaction handle comes back as it went in, with
    the job still in its queue and the history archive as it was, and no
    range deletion has been scheduled. *)
Theorem finishDDLJob_invalid_version (d : ddl) (t : Meta) (job : Job) (w : World) :
  currentVersion d < Version job ->
  Type_ job = ActionDropSchema \/ Type_ job = ActionDropTable
  \/ Type_ job = ActionTruncateTable \/ Type_ job = ActionDropIndex
  \/ (Type_ job = ActionAddIndex /\ State job = JobStateRollbackDone) ->
  finishDDLJob d t job w =
    (w, t, job, Some (TErr (errInvalidJobVersion (Version job) (currentVersion d))))
  /\ jobList (snd (fst (fst (finishDDLJob d t job w)))) = jobList t
  /\ historyJobs (txn (snd (fst (fst (finishDDLJob d t job w))))) = historyJobs (txn t)
  /\ delRangeJobs (fst (fst (fst (finishDDLJob d t job w)))) = delRangeJobs w.
Proof.
  intros Hv Hty. apply needsDeleteRange_true in Hty.
  assert (finishDDLJob d t job w =
    (w, t, job, Some (TErr (errInvalidJobVersion (Version job) (currentVersion d)))))
    as Heq.
  { rewrite finishDDLJob_unfold, Hty. unfold deleteRange.
    destruct (Z.leb_spec (Version job) (currentVersion d)); [lia|reflexivity]. }
  rewrite Heq. done.
Qed.

Lemma finishDDLJob_invalid_version_witness :
  let d := sampleDDL 1 (fun _ => true) (handlerFinish 5) in
  let job := setVersion 2 (sampleJob 8 ActionDropTable 3 JobStateDone StateNone) in
  let t := NewMeta (sampleStore [job] [] noFault) 100 in
  let w := sampleWorld (sampleStore [job] [] noFault) in
  finishDDLJob d t job w = (w, t, job, Some (TErr (errInvalidJobVersion 2 1)))
  /\ jobList (snd (fst (fst (finishDDLJob d t job w)))) = [job].
Proof.
  intros d job t w.
  destruct (finishDDLJob_invalid_version d t job w) as (H1 & H2 & _).
  - vm_compute. reflexivity.
  - right. left. reflexivity.
  - split; [exact H1 | exact H2].
Defined.

(** A finalization that succeeds, step by step. *)
Lemma deleteRange_ok (d : ddl) (job : Job) (w w1 : World) :
  deleteRange d job w = (w1, None) ->
  w1 = keepDelRange job w /\ Version job <= currentVersion d
  /\ delRangeManager d job = None.
Proof.
  unfold deleteRange, addDelRangeJob.
  destruct (Z.leb_spec (Version job) (currentVersion d)); [|discriminate].
  destruct (delRangeManager d job); [discriminate|].
  intros [= <-]. auto.
Qed.

Lemma deleteRange_err (d : ddl) (job : Job) (w w1 : World) (e : error) :
  deleteRange d job w = (w1, Some e) ->
  w1 = w /\ (currentVersion d < Version job \/ delRangeManager d job <> None).
Proof.
  unfold deleteRange, addDelRangeJob.
  destruct (Z.leb_spec (Version job) (currentVersion d)).
  - destruct (delRangeManager d job) eqn:Hm; [|discriminate].
    intros [= <- _]. split; [reflexivity|]. right. discriminate.
  - intros [= <- _]. auto.
Qed.

Lemma finishDDLJob_succeeded
    (d : ddl) (t t' : Meta) (job job' : Job) (w w' : World) :
  finishDDLJob d t job w = (w', t', job', None) ->
  w' = (if needsDeleteRange job then keepDelRange job w else w)
  /\ (needsDeleteRange job = true -> Version job <= currentVersion d)
  /\ job' = stampFinished t job
  /\ jobList t' = tail (jobList t)
  /\ historyJobs (txn t') = <[ID job := job']> (historyJobs (txn t)).
Proof.
  rewrite finishDDLJob_unfold.
  destruct (if needsDeleteRange job then deleteRange d job w else (w, None))
    as [w1 [e|]] eqn:Hc; [discriminate|].
  destruct (DeQueueDDLJob t) as [t1 [r|e1]] eqn:Hdq; [|discriminate].
  apply DeQueueDDLJob_ok in Hdq as (Hl & Hh & Hts & _ & _).
  assert (stampFinished t1 job = stampFinished t job) as ->
    by (unfold stampFinished; rewrite Hts; reflexivity).
  destruct (AddHistoryDDLJob t1 (stampFinished t job)) as [t2 err2] eqn:Hadd.
  intros [= <- <- <- ->].
  apply AddHistoryDDLJob_ok in Hadd as (Hh2 & Hl2 & _ & _).
  destruct (needsDeleteRange job).
  - apply deleteRange_ok in Hc as (-> & Hv & _).
    repeat split; [exact (fun _ => Hv) | congruence | rewrite Hh2, Hh; reflexivity].
  - injection Hc as <-.
    repeat split; [discriminate | congruence | rewrite Hh2, Hh; reflexivity].
Qed.

(** C8, as the claim states it, fails on the order.  A DropTable job is
    finalized against a store that refuses the dequeue: the range deletion
    has been scheduled all the same, so the deferred cleanup ran before the
    dequeue.  In the order of the claim the refused dequeue would have come
    first and nothing would have been scheduled. *)
Lemma finishDDLJob_not_dequeue_first :
  let d := sampleDDL 1 (fun _ => true) (handlerFinish 5) in
  let job := sampleJob 8 ActionDropTable 3 JobStateSynced StateNone in
  let s := sampleStore [job] [] (faultOn OpDeQueueDDLJob (PlainErr "unreachable")) in
  let t := NewMeta s 100 in
  let w := sampleWorld s in
  finishDDLJob d t job w = (keepDelRange job w, t, job, Some (PlainErr "unreachable"))
  /\ specFinalize d t job w = (w, t, job, Some (PlainErr "unreachable"))
  /\ finishDDLJob d t job w <> specFinalize d t job w.
Proof.
  intros d job s t w.
  assert (finishDDLJob d t job w
          = (keepDelRange job w, t, job, Some (PlainErr "unreachable"))) as H1
    by reflexivity.
  assert (specFinalize d t job w = (w, t, job, Some (PlainErr "unreachable"))) as H2
    by reflexivity.
  split; [exact H1 | split; [exact H2 |]].
  rewrite H1, H2. intros H. apply (f_equal (fun r => delRangeJobs (fst (fst (fst r))))) in H.
  vm_compute in H. discriminate.
Qed.

(** C8, amended.  Finalization runs, in this order and inside the caller's
    transaction: the type-specific deferred cleanup (a range deletion for
    DropSchema, DropTable, TruncateTable and DropIndex jobs, and for an
    AddIndex job exactly when its State is RollbackDone; it is scheduled
    only for a job whose Version does not exceed the current version), then
    the dequeue of the head job, then the completion stamp, then the
    history entry keyed by ID.  A refused cleanup leaves the queue, the job
    and the archive as they were; a refused dequeue comes after the range
    deletion was scheduled and before the stamp; the archived copy carries
    the stamp; and a closure that ends in an error commits nothing. *)
Theorem finishDDLJob_cleanup_dequeue_stamp_append
    (d : ddl) (t t' : Meta) (job job' : Job) (w w' : World) (err : option error) :
  finishDDLJob d t job w = (w', t', job', err) ->
  (err = None ->
     w' = (if needsDeleteRange job then keepDelRange job w else w)
     /\ (needsDeleteRange job = true -> Version job <= currentVersion d)
     /\ job' = stampFinished t job
     /\ jobList t' = tail (jobList t)
     /\ historyJobs (txn t') = <[ID job := job']> (historyJobs (txn t)))
  /\ (needsDeleteRange job = true ->
      currentVersion d < Version job \/ delRangeManager d job <> None ->
      err <> None /\ w' = w /\ t' = t /\ job' = job)
  /\ (forall e,
      fault (txn t) OpDeQueueDDLJob = Some e ->
      (needsDeleteRange job = true ->
       Version job <= currentVersion d /\ delRangeManager d job = None) ->
      err = Some e
      /\ w' = (if needsDeleteRange job then keepDelRange job w else w)
      /\ t' = t /\ job' = job)
  /\ (forall tx e w0, endTxn tx (Some e) w0 = (w0, Some e)).
Proof.
  intros Hrun. split; [|split; [|split]].
  - intros ->. exact (finishDDLJob_succeeded _ _ _ _ _ _ _ Hrun).
  - intros Hn Hwhy. rewrite finishDDLJob_unfold, Hn in Hrun.
    destruct (deleteRange d job w) as [w1 [e|]] eqn:Hc.
    + apply deleteRange_err in Hc as [-> _].
      injection Hrun as <- <- <- <-. repeat split. discriminate.
    + apply deleteRange_ok in Hc as (_ & Hv & Hm).
      destruct Hwhy; [lia|contradiction].
  - intros e He Hpre. rewrite finishDDLJob_unfold in Hrun.
    assert ((if needsDeleteRange job then deleteRange d job w else (w, None))
            = (if needsDeleteRange job then keepDelRange job w else w, None)) as Hc.
    { destruct (needsDeleteRange job); [|reflexivity].
      destruct (Hpre eq_refl) as [Hv Hm]. unfold deleteRange, addDelRangeJob.
      rewrite Hm. destruct (Z.leb_spec (Version job) (currentVersion d));
        [reflexivity|lia]. }
    rewrite Hc in Hrun. unfold DeQueueDDLJob in Hrun. rewrite He in Hrun.
    injection Hrun as <- <- <- <-. repeat split.
  - reflexivity.
Qed.

Lemma finishDDLJob_cleanup_dequeue_stamp_append_witness :
  let d := sampleDDL 1 (fun _ => true) (handlerFinish 5) in
  let job := sampleJob 8 ActionDropTable 3 JobStateSynced StateNone in
  let s := sampleStore [job] [] noFault in
  let t := NewMeta s 100 in
  let w := sampleWorld s in
  exists t' : Meta,
    finishDDLJob d t job w = (keepDelRange job w, t', stampFinished t job, None)
    /\ jobList t' = []
    /\ historyJobs (txn t') !! 8 = Some (stampFinished t job).
Proof.
  intros d job s t w.
  destruct (finishDDLJob d t job w) as [[[w' t'] job'] err] eqn:Hrun.
  assert (err = None) as -> by (vm_compute in Hrun; congruence).
  destruct (finishDDLJob_cleanup_dequeue_stamp_append d t t' job job' w w' None Hrun)
    as (Hok & _).
  destruct (Hok eq_refl) as (-> & _ & -> & Hl & Hh).
  exists t'. split; [reflexivity|]. split; [exact Hl|].
  rewrite Hh. apply lookup_insert_eq.
Defined.

(** C6, as the claim states it, fails on "still finalizes the job into the
    history archive".  The update of a DropTable job of Version 2, one above
    the current version, meets the entry-too-large error: the job is forced
    to Cancelled, but its finalization stops at the version check of
    [deleteRange], so the job stays in the queue and the archive stays
    empty. *)
Lemma handleUpdateJobError_not_always_archived :
  let d := sampleDDL 1 (fun _ => true) (handlerFinish 5) in
  let job := setVersion 2 (sampleJob 8 ActionDropTable 3 JobStateRunning StateWriteOnly) in
  let s := sampleStore [job] [] noFault in
  let t := NewMeta s 100 in
  let w := sampleWorld s in
  let '(w', t', job', err) :=
    handleUpdateJobError d t job (Some (TErr ErrEntryTooLarge)) w in
  State job' = JobStateCancelled
  /\ err = Some (TErr (errInvalidJobVersion 2 1))
  /\ historyJobs (txn t') !! ID job = None
  /\ jobList t' = [job].
Proof. vm_compute. repeat split. Qed.

(** C6, amended.  When the update fails with the entry-too-large error the
    worker forces State = Cancelled and SchemaState = None, clears
    BinlogInfo, records the error on the job and runs finalization on the
    forced job, returning what finalization returns; whenever that
    finalization succeeds the job has left the queue and is in the history
    archive, Cancelled, with the cleared BinlogInfo carrying only the
    completion stamp.  Any other update error is returned unchanged, and
    then, as when there is no error, neither the job nor the transaction
    nor the world is modified. *)
Theorem handleUpdateJobError_entry_too_large
    (d : ddl) (t : Meta) (job : Job) (err : option error) (w : World) :
  (err = None -> handleUpdateJobError d t job err w = (w, t, job, None))
  /\ (forall e, err = Some e -> isEntryTooLarge e = false ->
      handleUpdateJobError d t job err w = (w, t, job, Some e))
  /\ (forall e, err = Some e -> isEntryTooLarge e = true ->
      handleUpdateJobError d t job err w = finishDDLJob d t (forceCancelled job) w
      /\ State (forceCancelled job) = JobStateCancelled
      /\ SchemaState_ (forceCancelled job) = StateNone
      /\ BinlogInfo (forceCancelled job) = Clean (BinlogInfo job)
      /\ Error (forceCancelled job) = Some (toTError e)
      /\ forall w' t' job',
         finishDDLJob d t (forceCancelled job) w = (w', t', job', None) ->
         historyJobs (txn t') !! ID job = Some job'
         /\ job' = stampFinished t (forceCancelled job)
         /\ jobList t' = tail (jobList t)).
Proof.
  split; [intros ->; reflexivity|]. split.
  - intros e -> He. unfold handleUpdateJobError. rewrite He. reflexivity.
  - intros e -> He.
    assert (e = TErr ErrEntryTooLarge) as ->.
    { destruct e as [[]| |]; try discriminate. reflexivity. }
    split; [reflexivity|]. repeat (split; [reflexivity|]).
    intros w' t' job' Hfin.
    destruct (finishDDLJob_succeeded d t t' (forceCancelled job)
                job' w w' Hfin) as (_ & _ & -> & Hl & Hh).
    split; [|split; [reflexivity|exact Hl]].
    rewrite Hh. apply lookup_insert_eq.
Qed.

Lemma handleUpdateJobError_entry_too_large_witness :
  let d := sampleDDL 1 (fun _ => true) (handlerFinish 5) in
  let job := sampleJob 8 ActionAddColumn 3 JobStateRunning StateWriteOnly in
  let s := sampleStore [job] [] noFault in
  let t := NewMeta s 100 in
  let w := sampleWorld s in
  exists t' : Meta,
    handleUpdateJobError d t job (Some (TErr ErrEntryTooLarge)) w
      = (w, t', stampFinished t (forceCancelled job), None)
    /\ historyJobs (txn t') !! 8 = Some (stampFinished t (forceCancelled job))
    /\ jobList t' = []
    /\ handleUpdateJobError d t job (Some DeadlineExceeded) w
       = (w, t, job, Some DeadlineExceeded).
Proof.
  intros d job s t w.
  destruct (handleUpdateJobError_entry_too_large d t job (Some (TErr ErrEntryTooLarge)) w)
    as (_ & _ & Hbig).
  destruct (Hbig _ eq_refl eq_refl) as (Heq & _ & _ & _ & _ & Hfin).
  destruct (handleUpdateJobError_entry_too_large d t job (Some DeadlineExceeded) w)
    as (_ & Hother & _).
  destruct (finishDDLJob d t (forceCancelled job) w) as [[[w' t'] job'] err] eqn:Hrun.
  assert (err = None /\ w' = w) as [-> ->].
  { vm_compute in Hrun. injection Hrun as <- _ _ <-. split; reflexivity. }
  destruct (Hfin _ _ _ eq_refl) as (Hh & -> & Hl).
  exists t'. split; [exact Heq|]. split; [exact Hh|]. split; [exact Hl|].
  exact (Hother _ eq_refl eq_refl).
Defined.

(** ** Updating the head of the queue: claim C9 *)

(** C9, as the claim states it, fails.  A job whose Args were never
    decoded (Args nil, RawArgs present) is updated after a run that met no
    error: the stored raw form is overwritten with the serialization of the
    nil Args. *)
Lemma updateDDLJob_undecoded_args_overwritten :
  let d := sampleDDL 1 (fun _ => true) (handlerFinish 5) in
  let job := sampleJob 8 ActionAddColumn 3 JobStateRunning StateWriteOnly in
  let t := NewMeta (sampleStore [job] [] noFault) 100 in
  Args job = None
  /\ RawArgs job = Some "[true,idx]"%string
  /\ (RawArgs <$> jobList (fst (updateDDLJob d t job false)) !! 0%nat)
     = Some (Some "null"%string).
Proof. vm_compute. repeat split. Qed.

(** C9, amended.  Updating the job at the queue head preserves the stored
    RawArgs exactly when the run met an error and the job's Args were never
    decoded (Args is nil while RawArgs is non-nil); in every other case,
    also for an undecoded job whose run met no error, the stored RawArgs is
    the serialization of the typed Args.  The rest of the stored entry is
    the job as it is. *)
Theorem updateDDLJob_raw_args
    (d : ddl) (t t' : Meta) (job : Job) (meetErr : bool) :
  updateDDLJob d t job meetErr = (t', None) ->
  (meetErr = true /\ RawArgs job <> None /\ Args job = None ->
   jobList t' !! 0%nat = Some job)
  /\ (~ (meetErr = true /\ RawArgs job <> None /\ Args job = None) ->
      jobList t' !! 0%nat = Some (setRawArgs (Some (encodeArgs d (Args job))) job))
  /\ tail (jobList t') = tail (jobList t).
Proof.
  unfold updateDDLJob, UpdateDDLJob.
  destruct (fault (txn t) OpUpdateDDLJob); [discriminate|].
  destruct (decide (0 < length (jobList t))%nat) as [Hlen|]; [|discriminate].
  intros [= <-]. rewrite jobList_setJobList.
  destruct (jobList t) as [|j rest]; [simpl in Hlen; lia|]. simpl.
  split; [|split; [|reflexivity]].
  - intros (-> & Hraw & Hargs). simpl.
    rewrite (bool_decide_eq_true_2 _ Hraw), (bool_decide_eq_true_2 _ Hargs).
    reflexivity.
  - intros Hnot. destruct meetErr; [|reflexivity]. simpl.
    destruct (bool_decide (RawArgs job <> None)) eqn:Hraw;
      [|reflexivity].
    destruct (bool_decide (Args job = None)) eqn:Hargs; [|reflexivity].
    apply bool_decide_eq_true in Hraw, Hargs. exfalso. apply Hnot. auto.
Qed.

Lemma updateDDLJob_raw_args_witness :
  let d := sampleDDL 1 (fun _ => true) (handlerFinish 5) in
  let job := sampleJob 8 ActionAddColumn 3 JobStateRunning StateWriteOnly in
  let t := NewMeta (sampleStore [sampleJob 8 ActionAddColumn 3 JobStateQueued StateNone]
                      [] noFault) 100 in
  jobList (fst (updateDDLJob d t job true)) !! 0%nat = Some job.
Proof.
  intros d job t.
  destruct (updateDDLJob d t job true) as [t' err] eqn:Hrun.
  assert (err = None) as -> by (vm_compute in Hrun; congruence).
  destruct (updateDDLJob_raw_args d t t' job true Hrun) as (Hkeep & _ & _).
  apply Hkeep. repeat split; vm_compute; discriminate.
Defined.

(** ** The wait after a transition: claim C2 *)

Lemma countEvents_app (p : Event -> bool) (l1 l2 : list Event) :
  countEvents p (l1 ++ l2) = (countEvents p l1 + countEvents p l2)%nat.
Proof. induction l1 as [|e l1 IH]; simpl; [reflexivity | rewrite IH; lia]. Qed.

Lemma trace_emit (e : Event) (w : World) : trace (emit e w) = trace w ++ [e].
Proof. reflexivity. Qed.

Lemma countEvents_emit (p : Event -> bool) (e : Event) (w : World) :
  countEvents p (trace (emit e w))
  = (countEvents p (trace w) + if p e then 1 else 0)%nat.
Proof. rewrite trace_emit, countEvents_app. simpl. lia. Qed.

Lemma waitSchemaChanged_skipped (d : ddl) (ctx : Context) (waitTime ver : Z) (w : World) :
  waitTime = 0 \/ ver = 0 -> waitSchemaChanged d ctx waitTime ver w = w.
Proof.
  unfold waitSchemaChanged. intros [-> | ->]; [reflexivity|].
  destruct (waitTime =? 0); reflexivity.
Qed.

Lemma waitSchemaChanged_frame (d : ddl) (ctx : Context) (waitTime ver : Z) (w : World) :
  store (waitSchemaChanged d ctx waitTime ver w) = store w
  /\ closed (waitSchemaChanged d ctx waitTime ver w) = closed w
  /\ delRangeJobs (waitSchemaChanged d ctx waitTime ver w) = delRangeJobs w.
Proof.
  unfold waitSchemaChanged.
  repeat match goal with
         | |- context [if ?c then _ else _] => destruct c
         | |- context [match ?c with Some _ => _ | None => _ end] => destruct c
         end; simpl; auto.
Qed.

Lemma waitSchemaChanged_called (d : ddl) (ctx : Context) (waitTime ver : Z) (w : World) :
  waitTime <> 0 -> ver <> 0 ->
  exists rest,
    trace (waitSchemaChanged d ctx waitTime ver w)
    = trace w ++ EvOwnerUpdateGlobalVersion ver :: rest
    /\ forall p, p (EvOwnerCheckAllVersions ver) = false -> p EvCtxDone = false ->
                 countEvents p rest = 0%nat.
Proof.
  intros Hw Hv. unfold waitSchemaChanged.
  apply Z.eqb_neq in Hw, Hv. rewrite Hw, Hv.
  repeat match goal with
         | |- context [if ?c then _ else _] => destruct c
         | |- context [match ?c with Some _ => _ | None => _ end] => destruct c
         end; rewrite ?trace_emit, <- ?app_assoc; simpl;
    eexists; (split; [reflexivity|]); intros p Hp1 Hp2; simpl;
    rewrite ?Hp1, ?Hp2; reflexivity.
Qed.

Lemma needsSchemaWait_true (job : Job) :
  needsSchemaWait job = true <->
  State job = JobStateRunning \/ State job = JobStateRollingback
  \/ State job = JobStateDone \/ State job = JobStateRollbackDone.
Proof.
  unfold needsSchemaWait, IsRunning, IsRollingback, IsDone, IsRollbackDone.
  destruct (State job); simpl; intuition congruence.
Qed.

(** C2, as the claim states it, fails in the "if" direction.  With a lease
    of 0 the handler of an AddColumn job succeeds, leaves the job Running
    and produces schema version 5, yet the iteration ends without a single
    call to the schema syncer: [waitSchemaChanged] returns at once when the
    wait time, twice the lease, is 0. *)
Lemma handleDDLJobQueue_no_wait_with_zero_lease :
  let d := sampleDDL 0 (fun _ => true) (handlerKeep 5) in
  let job := sampleJob 8 ActionAddColumn 3 JobStateQueued StateNone in
  let w := sampleWorld (sampleStore [job] [] noFault) in
  exists w1 tx w2,
    handleDDLJobQueue_txn d 1 false false (wrap64 (2 * lease d)) (store w)
      (beginTS d (now w)) w
    = Some (w1, tx, false, Some (setState JobStateRunning job), 5, None, None)
    /\ handleDDLJobQueue_iter d 1 false false w = Some (IterContinue, false, w2)
    /\ countEvents isSyncWait (trace w2) = 0%nat
    /\ ~ (countEvents isSyncWait (trace w2) = S (countEvents isSyncWait (trace w1))
          <-> (State (setState JobStateRunning job) = JobStateRunning /\ 5 <> 0)).
Proof.
  intros d job w. do 3 eexists.
  split; [vm_compute; reflexivity|].
  split; [vm_compute; reflexivity|].
  split; [vm_compute; reflexivity|].
  vm_compute. intros [_ H]. discriminate H. split; [reflexivity|discriminate].
Qed.

(** C2, amended.  After an iteration whose transaction returned a job and
    no error (in particular after a successful handler dispatch), the
    worker calls the schema syncer before the next iteration if and only if
    the job's resulting State is Running, RollingBack, Done or RollbackDone,
    the schema version produced is non-zero, and the wait time, twice the
    lease, is non-zero.  Otherwise, and so whenever the version is 0, the
    wait is skipped entirely: the iteration only fires the [OnJobUpdated]
    hook (and the completion signal of a Synced job) and the next iteration
    starts. *)
Theorem handleDDLJobQueue_iter_schema_wait
    (d : ddl) (fuel : nat) (shouldCleanJobs once once' : bool) (w w1 : World)
    (tx : Store) (job : Job) (schemaVer : Z) :
  isClosed w = false ->
  handleDDLJobQueue_txn d fuel shouldCleanJobs once (wrap64 (2 * lease d))
    (store w) (beginTS d (now w)) w
  = Some (w1, tx, once', Some job, schemaVer, None, None) ->
  fault tx OpCommit = None ->
  exists w2,
    handleDDLJobQueue_iter d fuel shouldCleanJobs once w
    = Some (IterContinue, once', w2)
    /\ ((State job = JobStateRunning \/ State job = JobStateRollingback
         \/ State job = JobStateDone \/ State job = JobStateRollbackDone)
        /\ schemaVer <> 0 /\ wrap64 (2 * lease d) <> 0 ->
        countEvents isSyncWait (trace w2) = S (countEvents isSyncWait (trace w1))
        /\ exists rest,
             trace w2
             = trace w1 ++ EvOnJobUpdated job :: EvOwnerUpdateGlobalVersion schemaVer :: rest)
    /\ (~ ((State job = JobStateRunning \/ State job = JobStateRollingback
            \/ State job = JobStateDone \/ State job = JobStateRollbackDone)
           /\ schemaVer <> 0 /\ wrap64 (2 * lease d) <> 0) ->
        trace w2
        = trace w1 ++ EvOnJobUpdated job
                      :: (if IsSynced job then [EvNotifyJobDone] else [])
        /\ countEvents isSyncWait (trace w2) = countEvents isSyncWait (trace w1))
    /\ (schemaVer = 0 ->
        ~ ((State job = JobStateRunning \/ State job = JobStateRollingback
            \/ State job = JobStateDone \/ State job = JobStateRollbackDone)
           /\ schemaVer <> 0 /\ wrap64 (2 * lease d) <> 0)).
Proof.
  intros Hclosed Htxn Hcommit.
  unfold handleDDLJobQueue_iter. rewrite Hclosed, Htxn.
  unfold endTxn. rewrite Hcommit. simpl.
  fold (needsSchemaWait job).
  set (w1' := emit (EvOnJobUpdated job) (setStore tx w1)).
  assert (trace w1' = trace w1 ++ [EvOnJobUpdated job]) as Htr by reflexivity.
  eexists. split; [reflexivity|]. split; [|split].
  - intros (Hst & Hv & Hw). apply needsSchemaWait_true in Hst. rewrite Hst.
    destruct (waitSchemaChanged_called d ctxNil _ _ w1' Hw Hv) as (rest & Hrest & Hcount).
    assert (IsSynced job = false) as ->.
    { unfold needsSchemaWait, IsRunning, IsRollingback, IsDone, IsRollbackDone in Hst.
      unfold IsSynced. destruct (State job); done. }
    rewrite Hrest, Htr, <- app_assoc. simpl. split; [|eauto].
    rewrite !countEvents_app. simpl. rewrite (Hcount isSyncWait); [lia|done|done].
  - intros Hnot.
    assert (needsSchemaWait job = false \/ schemaVer = 0 \/ wrap64 (2 * lease d) = 0)
      as Hwhy.
    { destruct (needsSchemaWait job) eqn:Hst; [|auto].
      apply needsSchemaWait_true in Hst.
      destruct (decide (schemaVer = 0)); [auto|].
      destruct (decide (wrap64 (2 * lease d) = 0)); [auto|]. tauto. }
    assert ((if needsSchemaWait job
             then waitSchemaChanged d ctxNil (wrap64 (2 * lease d)) schemaVer w1'
             else w1') = w1') as ->.
    { destruct Hwhy as [-> | [Hv | Hw]]; [reflexivity| |];
        destruct (needsSchemaWait job); try reflexivity;
        apply waitSchemaChanged_skipped; auto. }
    assert (forall l, countEvents isSyncWait (trace w1 ++ EvOnJobUpdated job :: l)
                      = (countEvents isSyncWait (trace w1) + countEvents isSyncWait l)%nat)
      as Hc by (intros l; rewrite countEvents_app; reflexivity).
    destruct (IsSynced job); rewrite ?trace_emit, Htr, <- ?app_assoc; simpl;
      (split; [reflexivity|]); rewrite Hc; simpl; lia.
  - intros -> (_ & Hv & _). contradiction.
Qed.

Lemma handleDDLJobQueue_iter_schema_wait_witness :
  let d := sampleDDL 1 (fun _ => true) (handlerKeep 5) in
  let job := sampleJob 8 ActionAddColumn 3 JobStateQueued StateNone in
  let w := sampleWorld (sampleStore [job] [] noFault) in
  exists w2,
    handleDDLJobQueue_iter d 1 false false w = Some (IterContinue, false, w2)
    /\ countEvents isSyncWait (trace w2) = 1%nat.
Proof.
  intros d job w.
  destruct (handleDDLJobQueue_txn d 1 false false (wrap64 (2 * lease d)) (store w)
              (beginTS d (now w)) w) as [r|] eqn:Htxn; [|discriminate Htxn].
  destruct r as [[[[[[w1 tx] once'] oj] ver] rerr] err].
  assert (Hc := Htxn). vm_compute in Hc.
  injection Hc as Hw1 Htx Ho Hj Hv Hr He. subst once' oj ver rerr err.
  destruct (handleDDLJobQueue_iter_schema_wait d 1 false false false w w1 tx _ _
              eq_refl Htxn) as (w2 & Hiter & Hyes & _ & _).
  { rewrite <- Htx. reflexivity. }
  exists w2. split; [exact Hiter|].
  destruct Hyes as [Hn _].
  { split; [left; reflexivity|]. split; [discriminate|]. vm_compute. discriminate. }
  rewrite Hn, <- Hw1. reflexivity.
Defined.

(** ** What the functions of the worker add to the trace *)

Lemma emitsOnly_refl (P : Event -> Prop) (w : World) : emitsOnly P w w.
Proof. exists []. rewrite app_nil_r. split; [reflexivity | constructor]. Qed.

Lemma emitsOnly_same (P : Event -> Prop) (w w' : World) :
  trace w' = trace w -> emitsOnly P w w'.
Proof. intros H. exists []. rewrite app_nil_r. split; [exact H | constructor]. Qed.

Lemma emitsOnly_trans (P : Event -> Prop) (w1 w2 w3 : World) :
  emitsOnly P w1 w2 -> emitsOnly P w2 w3 -> emitsOnly P w1 w3.
Proof.
  intros (l1 & H1 & F1) (l2 & H2 & F2). exists (l1 ++ l2).
  rewrite H2, H1, app_assoc. split; [reflexivity|]. apply Forall_app. auto.
Qed.

Lemma emitsOnly_emit (P : Event -> Prop) (e : Event) (w : World) :
  P e -> emitsOnly P w (emit e w).
Proof. intros H. exists [e]. split; [reflexivity|]. repeat constructor. exact H. Qed.

Lemma emitsOnly_weaken (P Q : Event -> Prop) (w w' : World) :
  (forall e, P e -> Q e) -> emitsOnly P w w' -> emitsOnly Q w w'.
Proof.
  intros HPQ (l & H & F). exists l. split; [exact H|].
  eapply Forall_impl; eauto.
Qed.

Lemma countEvents_none (P : Event -> Prop) (p : Event -> bool) (l : list Event) :
  (forall e, P e -> p e = false) -> Forall P l -> countEvents p l = 0%nat.
Proof.
  intros HP F. induction F as [|e l He _ IH]; simpl; [reflexivity|].
  rewrite (HP e He), IH. reflexivity.
Qed.

Lemma emitsOnly_count (P : Event -> Prop) (p : Event -> bool) (w w' : World) :
  (forall e, P e -> p e = false) -> emitsOnly P w w' ->
  countEvents p (trace w') = countEvents p (trace w).
Proof.
  intros HP (l & -> & F). rewrite countEvents_app.
  rewrite (countEvents_none P p l HP F). lia.
Qed.

Lemma finishDDLJob_trace (d : ddl) (t t' : Meta) (job job' : Job) (w w' : World)
    (err : option error) :
  finishDDLJob d t job w = (w', t', job', err) ->
  trace w' = trace w /\ store w' = store w /\ closed w' = closed w.
Proof.
  rewrite finishDDLJob_unfold.
  assert (forall r, (if needsDeleteRange job then deleteRange d job w else (w, None)) = r ->
                    trace (fst r) = trace w /\ store (fst r) = store w
                    /\ closed (fst r) = closed w) as Hc.
  { intros r <-. destruct (needsDeleteRange job); [|auto].
    unfold deleteRange, addDelRangeJob.
    destruct (Version job <=? currentVersion d); [|auto].
    destruct (delRangeManager d job); auto. }
  destruct (if needsDeleteRange job then deleteRange d job w else (w, None))
    as [w1 [e|]] eqn:Hdel; specialize (Hc _ eq_refl); simpl in Hc.
  - intros [= <- _ _ _]. exact Hc.
  - destruct (DeQueueDDLJob t) as [t1 [r|e1]].
    + destruct (AddHistoryDDLJob t1 (stampFinished t1 job)).
      intros [= <- _ _ _]. exact Hc.
    + intros [= <- _ _ _]. exact Hc.
Qed.

Lemma handleUpdateJobError_trace (d : ddl) (t t' : Meta) (job job' : Job)
    (e err : option error) (w w' : World) :
  handleUpdateJobError d t job e w = (w', t', job', err) ->
  trace w' = trace w /\ store w' = store w /\ closed w' = closed w.
Proof.
  unfold handleUpdateJobError. destruct e as [e|]; [|intros [= <- _ _ _]; auto].
  destruct (isEntryTooLarge e); [|intros [= <- _ _ _]; auto].
  apply finishDDLJob_trace.
Qed.

Lemma runDDLJob_trace (d : ddl) (t t' : Meta) (job job' : Job) (w w' : World)
    (ver : Z) (err : option error) :
  runDDLJob d t job w = (w', t', job', ver, err) ->
  emitsOnly (fun e => e = EvNotifyReorgCancel) w w'
  /\ store w' = store w /\ closed w' = closed w.
Proof.
  unfold runDDLJob, runDDLJob_dispatch.
  destruct (IsFinished job); [intros [= <- _ _ _ _]; split; [apply emitsOnly_refl|auto]|].
  destruct (IsCancelling job).
  - destruct (isBackfilling job).
    + destruct (runHandler d t _) as [[[t1 j1] v1] e1].
      intros [= <- _ _ _ _]. split; [apply emitsOnly_emit; reflexivity | auto].
    + intros [= <- _ _ _ _]. split; [apply emitsOnly_refl|auto].
  - destruct (runHandler d t _) as [[[t1 j1] v1] e1].
    intros [= <- _ _ _ _]. split; [apply emitsOnly_refl|auto].
Qed.

Lemma waitSchemaChanged_trace (d : ddl) (ctx : Context) (waitTime ver : Z) (w : World) :
  emitsOnly evSyncer w (waitSchemaChanged d ctx waitTime ver w).
Proof.
  unfold waitSchemaChanged.
  repeat match goal with
         | |- context [if ?c then _ else _] => destruct c
         | |- context [match ?c with Some _ => _ | None => _ end] => destruct c
         end;
    repeat first [ apply emitsOnly_refl
                 | eapply emitsOnly_trans; [|apply emitsOnly_emit; exact I] ].
Qed.

Lemma waitSchemaSynced_frame (d : ddl) (job : Job) (waitTime : Z) (w : World) :
  store (waitSchemaSynced d job waitTime w) = store w
  /\ closed (waitSchemaSynced d job waitTime w) = closed w
  /\ delRangeJobs (waitSchemaSynced d job waitTime w) = delRangeJobs w.
Proof.
  unfold waitSchemaSynced.
  destruct (negb (IsRunning job) && negb (IsRollingback job)
            && negb (IsDone job) && negb (IsRollbackDone job)); [auto|].
  destruct (MustGetGlobalVersion _ _ _) as [v [e|]]; [auto|].
  apply (waitSchemaChanged_frame d _ _ _ (emit EvMustGetGlobalVersion w)).
Qed.

(** The resynchronization reads the global version exactly when the job
    is Running, RollingBack, Done or RollbackDone; whatever follows comes
    from [waitSchemaChanged]. *)
Lemma waitSchemaSynced_trace (d : ddl) (job : Job) (waitTime : Z) (w : World) :
  exists rest,
    trace (waitSchemaSynced d job waitTime w)
    = trace w ++ (if needsSchemaWait job then EvMustGetGlobalVersion :: rest else [])
    /\ Forall evSyncer rest.
Proof.
  unfold waitSchemaSynced, needsSchemaWait.
  destruct (IsRunning job), (IsRollingback job), (IsDone job), (IsRollbackDone job);
    simpl;
    try (destruct (MustGetGlobalVersion _ _ _) as [v [e|]];
         [ exists []; split; [reflexivity | constructor]
         | destruct (waitSchemaChanged_trace d (ctxTimeout waitTime) waitTime v
                       (emit EvMustGetGlobalVersion w)) as (rest & Hr & HF);
           exists rest; rewrite Hr, trace_emit, <- app_assoc; split; [reflexivity|exact HF] ]).
  exists []. rewrite app_nil_r. split; [reflexivity | constructor].
Qed.

Lemma cleanAddIndexQueueJobs_loop_trace (d : ddl) (fuel : nat) :
  forall (m m' : Meta) (w w' : World) (err : option error),
    cleanAddIndexQueueJobs_loop d fuel m w = Some (w', m', err) ->
    emitsOnly evClean w w' /\ store w' = store w /\ closed w' = closed w.
Proof.
  induction fuel as [|fuel IH]; intros m m' w w' err; simpl; [discriminate|].
  destruct (getFirstDDLJob m) as [[job|]|e].
  - set (w0 := emit (EvLog (LogCleaningJob (ID job))) w).
    assert (emitsOnly evClean w w0) as H0 by (apply emitsOnly_emit; exact I).
    destruct (bool_decide (SchemaState_ job = StatePublic)
              || bool_decide (SchemaState_ job = StateNone)).
    + destruct (bool_decide (SchemaState_ job = StateNone)).
      * destruct (finishDDLJob d m _ w0) as [[[w1 m1] j1] [e1|]] eqn:Hfin;
          apply finishDDLJob_trace in Hfin as (Ht & Hs & Hc).
        -- intros [= <- _ _]. split; [|auto].
           eapply emitsOnly_trans; [exact H0 | apply emitsOnly_same, Ht].
        -- intros Hrec. apply IH in Hrec as (Hr & Hs' & Hc').
           split; [|split; [rewrite Hs', Hs | rewrite Hc', Hc]; reflexivity].
           eapply emitsOnly_trans; [exact H0|].
           eapply emitsOnly_trans; [apply emitsOnly_same, Ht | exact Hr].
      * set (w0' := emit (EvSetDDLBinlog (ID job) (Query job)) w0).
        assert (emitsOnly evClean w w0') as H0'.
        { eapply emitsOnly_trans; [exact H0 | apply emitsOnly_emit; exact I]. }
        destruct (finishDDLJob d m _ w0') as [[[w1 m1] j1] [e1|]] eqn:Hfin;
          apply finishDDLJob_trace in Hfin as (Ht & Hs & Hc).
        -- intros [= <- _ _]. split; [|auto].
           eapply emitsOnly_trans; [exact H0' | apply emitsOnly_same, Ht].
        -- intros Hrec. apply IH in Hrec as (Hr & Hs' & Hc').
           split; [|split; [rewrite Hs', Hs | rewrite Hc', Hc]; reflexivity].
           eapply emitsOnly_trans; [exact H0'|].
           eapply emitsOnly_trans; [apply emitsOnly_same, Ht | exact Hr].
    + destruct (getTableInfo d m job (SchemaID job)) as [tbl|e];
        [|intros [= <- _ _]; split; [exact H0|auto]].
      destruct (DecodeArgs d job) as [j1 [[unique indexName]|e]];
        [|intros [= <- _ _]; split; [exact H0|auto]].
      destruct (convert2RollbackJob d m j1 tbl _) as [[[m1 j2] v] cerr].
      destruct (match cerr with
                | Some err0 => (m1, Some err0)
                | None => match DeQueueDDLJob m1 with
                          | (m2, inl _) => (m2, None)
                          | (m2, inr err0) => (m2, Some err0)
                          end
                end) as [m2 [e|]];
        [intros [= <- _ _]; split; [exact H0|auto]|].
      destruct (EnQueueDDLJob (SetJobListKey DefaultJobListKey m2) j2) as [m3 [e|]];
        [intros [= <- _ _]; split; [exact H0|auto]|].
      intros Hrec. apply IH in Hrec as (Hr & Hs' & Hc').
      split; [|split; assumption].
      eapply emitsOnly_trans; [exact H0 | exact Hr].
  - intros [= <- _ _]. split; [apply emitsOnly_emit; exact I | auto].
  - intros [= <- _ _]. split; [apply emitsOnly_refl | auto].
Qed.

Lemma evClean_notResync (e : Event) : evClean e -> notResync e.
Proof. destruct e; simpl; intros H; try contradiction; reflexivity. Qed.

Lemma evClean_notDispatch (e : Event) : evClean e -> notDispatch e.
Proof. destruct e; simpl; intros H; try contradiction; reflexivity. Qed.

Lemma evSyncer_notResync (e : Event) : evSyncer e -> notResync e.
Proof. destruct e; simpl; intros H; try contradiction; reflexivity. Qed.

Lemma evSyncer_notDispatch (e : Event) : evSyncer e -> notDispatch e.
Proof. destruct e; simpl; intros H; try contradiction; reflexivity. Qed.

(** The events of the transaction of an iteration. *)
Lemma handleDDLJobQueue_txn_trace
    (d : ddl) (fuel : nat) (shouldCleanJobs once once' : bool) (waitTime : Z)
    (tx tx' : Store) (startTS : Z) (w w1 : World) (job : option Job) (ver : Z)
    (rerr err : option error) :
  handleDDLJobQueue_txn d fuel shouldCleanJobs once waitTime tx startTS w
  = Some (w1, tx', once', job, ver, rerr, err) ->
  emitsOnly (evTxn shouldCleanJobs once) w w1
  /\ store w1 = store w /\ closed w1 = closed w
  /\ (once = false -> once' = false)
  /\ (shouldCleanJobs = true -> job = None /\ rerr = None).
Proof.
  unfold handleDDLJobQueue_txn, isOwner.
  set (P := evTxn shouldCleanJobs once).
  set (w0 := emit (EvIsOwner (ownerManager d (now w))) w).
  assert (emitsOnly P w w0) as H0 by (apply emitsOnly_emit; exact I).
  destruct (ownerManager d (now w)); simpl;
    [|intros [= <- _ <- <- _ <- _]; repeat split; auto; discriminate].
  destruct shouldCleanJobs.
  - unfold cleanAddIndexQueueJobs.
    destruct (cleanAddIndexQueueJobs_loop d fuel _ w0) as [[[w2 m2] e2]|] eqn:Hclean;
      [|discriminate].
    apply cleanAddIndexQueueJobs_loop_trace in Hclean as (Hc & Hs & Hcl).
    intros [= <- _ <- <- _ <- _]. split; [|repeat split; auto].
    eapply emitsOnly_trans; [exact H0|].
    eapply emitsOnly_weaken; [|exact Hc].
    intros []; simpl; intros H; try contradiction; auto.
  - destruct (getFirstDDLJob (NewMeta tx startTS)) as [[j|]|e];
      [| intros [= <- _ <- _ _ _ _]; repeat split; auto; discriminate
       | intros [= <- _ <- _ _ _ _]; repeat split; auto; discriminate ].
    destruct once.
    { intros [= <- _ <- _ _ _ _].
      destruct (waitSchemaSynced_trace d j waitTime w0) as (rest & Hr & HF).
      destruct (waitSchemaSynced_frame d j waitTime w0) as (Hs & Hc & _).
      split; [|repeat split; auto; discriminate].
      eapply emitsOnly_trans; [exact H0|].
      eexists. split; [exact Hr|].
      destruct (needsSchemaWait j); [|constructor].
      constructor; [split; reflexivity|].
      eapply Forall_impl; [exact HF|].
      intros []; simpl; intros H; try contradiction; auto. }
    destruct (IsDone j || IsRollbackDone j).
    + set (w2 := emit (EvSetDDLBinlog (ID j) (Query j)) w0).
      destruct (finishDDLJob d _ _ w2) as [[[w3 t3] j3] e3] eqn:Hfin.
      apply finishDDLJob_trace in Hfin as (Ht & Hs & Hc).
      intros [= <- _ <- _ _ _ _]. split; [|repeat split; auto; discriminate].
      eapply emitsOnly_trans; [exact H0|].
      eapply emitsOnly_trans; [|apply emitsOnly_same, Ht].
      apply emitsOnly_emit. exact I.
    + set (w2 := emit (EvOnJobRunBefore j) w0).
      assert (emitsOnly P w w2) as H2.
      { eapply emitsOnly_trans; [exact H0 | apply emitsOnly_emit; split; reflexivity]. }
      destruct (runDDLJob d _ j w2) as [[[[w3 t3] j3] v3] e3] eqn:Hrun.
      apply runDDLJob_trace in Hrun as (Hr & Hs3 & Hc3).
      assert (emitsOnly P w w3) as H3.
      { eapply emitsOnly_trans; [exact H2|].
        eapply emitsOnly_weaken; [|exact Hr]. intros e ->. split; reflexivity. }
      destruct (IsCancelled j3).
      * destruct (finishDDLJob d t3 j3 w3) as [[[w4 t4] j4] e4] eqn:Hfin.
        apply finishDDLJob_trace in Hfin as (Ht & Hs & Hc).
        intros [= <- _ <- _ _ _ _].
        split; [|split; [rewrite Hs, Hs3 | split; [rewrite Hc, Hc3|]];
                 try reflexivity; split; [reflexivity | discriminate]].
        eapply emitsOnly_trans; [exact H3 | apply emitsOnly_same, Ht].
      * destruct (updateDDLJob d t3 j3 _) as [t4 e4].
        destruct (handleUpdateJobError d t4 j3 e4 w3) as [[[w5 t5] j5] e5] eqn:Hupd.
        apply handleUpdateJobError_trace in Hupd as (Ht & Hs & Hc).
        intros [= <- _ <- _ _ _ _].
        split; [|split; [rewrite Hs, Hs3 | split; [rewrite Hc, Hc3|]];
                 try reflexivity; split; [reflexivity | discriminate]].
        eapply emitsOnly_trans; [exact H3 | apply emitsOnly_same, Ht].
Qed.

Lemma evTxn_once_false_notResync (shouldCleanJobs : bool) (e : Event) :
  evTxn shouldCleanJobs false e -> notResync e.
Proof. destruct e; simpl; try reflexivity. intros [_ H]. discriminate. Qed.

Lemma evTxn_notMigration (once : bool) (e : Event) :
  evTxn false once e -> notMigration e.
Proof. destruct e; simpl; try reflexivity. discriminate. Qed.

(** The transaction of an iteration that starts with [once] cleared does
    not resynchronize, and leaves [once] cleared. *)
Lemma handleDDLJobQueue_txn_once_false
    (d : ddl) (fuel : nat) (shouldCleanJobs once' : bool) (waitTime : Z)
    (tx tx' : Store) (startTS : Z) (w w1 : World) (job : option Job) (ver : Z)
    (rerr err : option error) :
  handleDDLJobQueue_txn d fuel shouldCleanJobs false waitTime tx startTS w
  = Some (w1, tx', once', job, ver, rerr, err) ->
  once' = false /\ emitsOnly notResync w w1
  /\ store w1 = store w /\ closed w1 = closed w.
Proof.
  intros H. apply handleDDLJobQueue_txn_trace in H as (He & Hs & Hc & Ho & _).
  split; [auto|]. split; [|auto].
  eapply emitsOnly_weaken; [apply evTxn_once_false_notResync | exact He].
Qed.

(** The transaction of a pass's first iteration: the resynchronization is
    all it does with a head job, and it clears [once]. *)
Lemma handleDDLJobQueue_txn_once_true
    (d : ddl) (fuel : nat) (shouldCleanJobs once' : bool) (waitTime : Z)
    (tx tx' : Store) (startTS : Z) (w w1 : World) (job : option Job) (ver : Z)
    (rerr err : option error) :
  handleDDLJobQueue_txn d fuel shouldCleanJobs true waitTime tx startTS w
  = Some (w1, tx', once', job, ver, rerr, err) ->
  (job <> None -> once' = false)
  /\ (countEvents isResync (trace w1) <= S (countEvents isResync (trace w)))%nat
  /\ emitsOnly notDispatch w w1
  /\ store w1 = store w /\ closed w1 = closed w.
Proof.
  unfold handleDDLJobQueue_txn, isOwner.
  set (w0 := emit (EvIsOwner (ownerManager d (now w))) w).
  assert (countEvents isResync (trace w0) = countEvents isResync (trace w)) as H0.
  { unfold w0. rewrite countEvents_emit. simpl. lia. }
  assert (emitsOnly notDispatch w w0) as D0 by (apply emitsOnly_emit; reflexivity).
  destruct (ownerManager d (now w)); simpl;
    [|intros [= <- _ <- <- _ _ _]; repeat split; [done | lia | exact D0]].
  destruct shouldCleanJobs.
  - unfold cleanAddIndexQueueJobs.
    destruct (cleanAddIndexQueueJobs_loop d fuel _ w0) as [[[w2 m2] e2]|] eqn:Hclean;
      [|discriminate].
    apply cleanAddIndexQueueJobs_loop_trace in Hclean as (Hc & Hs & Hcl).
    intros [= <- _ <- <- _ _ _].
    split; [done|]. split; [|split; [|auto]].
    + rewrite (emitsOnly_count _ isResync _ _ evClean_notResync Hc). lia.
    + eapply emitsOnly_trans; [exact D0|].
      eapply emitsOnly_weaken; [apply evClean_notDispatch | exact Hc].
  - destruct (getFirstDDLJob (NewMeta tx startTS)) as [[j|]|e];
      [| intros [= <- _ <- <- _ _ _]; repeat split; [done | lia | exact D0]
       | intros [= <- _ <- <- _ _ _]; repeat split; [done | lia | exact D0] ].
    intros [= <- _ <- _ _ _ _]. split; [reflexivity|].
    destruct (waitSchemaSynced_trace d j waitTime w0) as (rest & Hr & HF).
    destruct (waitSchemaSynced_frame d j waitTime w0) as (Hs & Hc & _).
    split; [|split; [|auto]].
    + rewrite Hr, countEvents_app, H0.
      assert (countEvents isResync rest = 0%nat) as Hz
        by exact (countEvents_none _ _ _ evSyncer_notResync HF).
      destruct (needsSchemaWait j); simpl; rewrite ?Hz; lia.
    + eapply emitsOnly_trans; [exact D0|].
      eexists. split; [exact Hr|].
      destruct (needsSchemaWait j); [|constructor].
      constructor; [reflexivity|].
      eapply Forall_impl; [exact HF | apply evSyncer_notDispatch].
Qed.

Lemma evAfterTxn_notResync (e : Event) : evAfterTxn e -> notResync e.
Proof. destruct e; simpl; intros H; try contradiction; reflexivity. Qed.

Lemma evAfterTxn_notDispatch (e : Event) : evAfterTxn e -> notDispatch e.
Proof. destruct e; simpl; intros H; try contradiction; reflexivity. Qed.

Lemma evSyncer_evAfterTxn (e : Event) : evSyncer e -> evAfterTxn e.
Proof. destruct e; simpl; intros H; try contradiction; exact I. Qed.

Lemma endTxn_trace (tx : Store) (err err' : option error) (w w' : World) :
  endTxn tx err w = (w', err') ->
  trace w' = trace w /\ closed w' = closed w /\ delRangeJobs w' = delRangeJobs w
  /\ (err' = None -> err = None /\ store w' = tx)
  /\ (err' <> None -> store w' = store w).
Proof.
  unfold endTxn. destruct err as [e|].
  - intros [= <- <-]. repeat split; try done.
  - destruct (fault tx OpCommit).
    + intros [= <- <-]. repeat split; try done.
    + intros [= <- <-]. repeat split; try done.
Qed.

(** An iteration is either the return of a closed worker, or a transaction
    followed by the hooks and waits of the loop body. *)
Lemma handleDDLJobQueue_iter_inv
    (d : ddl) (fuel : nat) (shouldCleanJobs once once' : bool) (w w' : World)
    (out : IterOutcome) :
  handleDDLJobQueue_iter d fuel shouldCleanJobs once w = Some (out, once', w') ->
  (isClosed w = true /\ out = IterReturn None /\ once' = once /\ w' = w)
  \/ (isClosed w = false
      /\ exists w1 tx job ver rerr err,
           handleDDLJobQueue_txn d fuel shouldCleanJobs once (wrap64 (2 * lease d))
             (store w) (beginTS d (now w)) w
           = Some (w1, tx, once', job, ver, rerr, err)
           /\ emitsOnly evAfterTxn w1 w'
           /\ (out = IterContinue -> job <> None)
           /\ (job = None -> exists e, out = IterReturn e)).
Proof.
  unfold handleDDLJobQueue_iter. destruct (isClosed w).
  - intros [= <- <- <-]. left. auto.
  - destruct (handleDDLJobQueue_txn _ _ _ _ _ _ _ _)
      as [[[[[[[w1 tx] o1] job] ver] rerr] err]|] eqn:Htxn; [|discriminate].
    destruct (endTxn tx err w1) as [w2 err2] eqn:Hend.
    apply endTxn_trace in Hend as (Ht2 & _).
    set (w3 := if bool_decide (rerr <> None) then emit EvSleep w2 else w2).
    assert (emitsOnly evAfterTxn w1 w3) as H3.
    { eapply emitsOnly_trans; [apply emitsOnly_same, Ht2|]. unfold w3.
      destruct (bool_decide (rerr <> None));
        [apply emitsOnly_emit; exact I | apply emitsOnly_refl]. }
    intros Hres. right. split; [reflexivity|].
    exists w1, tx, job, ver, rerr, err.
    destruct err2 as [e2|].
    { injection Hres as <- <- <-. repeat split; eauto; discriminate. }
    destruct job as [j|].
    2:{ injection Hres as <- <- <-. repeat split; eauto; discriminate. }
    injection Hres as <- <- <-.
    split; [reflexivity|]. split; [|split; [discriminate|discriminate]].
    eapply emitsOnly_trans; [exact H3|].
    set (w4 := emit (EvOnJobUpdated j) w3).
    eapply emitsOnly_trans; [apply (emitsOnly_emit evAfterTxn (EvOnJobUpdated j)); exact I|].
    fold w4.
    set (w5 := if IsRunning j || IsRollingback j || IsDone j || IsRollbackDone j
               then waitSchemaChanged d ctxNil (wrap64 (2 * lease d)) ver w4 else w4).
    assert (emitsOnly evAfterTxn w4 w5) as H5.
    { unfold w5. destruct (IsRunning j || IsRollingback j || IsDone j || IsRollbackDone j);
        [|apply emitsOnly_refl].
      eapply emitsOnly_weaken; [apply evSyncer_evAfterTxn | apply waitSchemaChanged_trace]. }
    eapply emitsOnly_trans; [exact H5|].
    destruct (IsSynced j); [apply emitsOnly_emit; exact I | apply emitsOnly_refl].
Qed.

Lemma handleDDLJobQueue_iter_once_false
    (d : ddl) (fuel : nat) (shouldCleanJobs once' : bool) (w w' : World)
    (out : IterOutcome) :
  handleDDLJobQueue_iter d fuel shouldCleanJobs false w = Some (out, once', w') ->
  once' = false /\ emitsOnly notResync w w'.
Proof.
  intros H. apply handleDDLJobQueue_iter_inv in H
    as [(_ & _ & -> & ->) | (_ & w1 & tx & job & ver & rerr & err & Htxn & Hpost & _)].
  - split; [reflexivity | apply emitsOnly_refl].
  - apply handleDDLJobQueue_txn_once_false in Htxn as (-> & H1 & _).
    split; [reflexivity|]. eapply emitsOnly_trans; [exact H1|].
    eapply emitsOnly_weaken; [apply evAfterTxn_notResync | exact Hpost].
Qed.

Lemma handleDDLJobQueue_iter_once_true
    (d : ddl) (fuel : nat) (shouldCleanJobs once' : bool) (w w' : World)
    (out : IterOutcome) :
  handleDDLJobQueue_iter d fuel shouldCleanJobs true w = Some (out, once', w') ->
  (out = IterContinue -> once' = false)
  /\ (countEvents isResync (trace w') <= S (countEvents isResync (trace w)))%nat
  /\ emitsOnly notDispatch w w'.
Proof.
  intros H. apply handleDDLJobQueue_iter_inv in H
    as [(_ & -> & -> & ->)
       | (_ & w1 & tx & job & ver & rerr & err & Htxn & Hpost & Hcont & _)].
  - split; [discriminate|]. split; [lia | apply emitsOnly_refl].
  - apply handleDDLJobQueue_txn_once_true in Htxn as (Honce & Hle & Hd & _).
    split; [auto|]. split.
    + rewrite (emitsOnly_count _ isResync _ _ evAfterTxn_notResync Hpost). exact Hle.
    + eapply emitsOnly_trans; [exact Hd|].
      eapply emitsOnly_weaken; [apply evAfterTxn_notDispatch | exact Hpost].
Qed.

Lemma handleDDLJobQueue_loop_once_false (d : ddl) (fuel : nat) :
  forall (shouldCleanJobs : bool) (w w' : World) (err : option error),
    handleDDLJobQueue_loop d fuel shouldCleanJobs false w = Some (err, w') ->
    emitsOnly notResync w w'.
Proof.
  induction fuel as [|fuel IH]; intros sc w w' err; simpl; [discriminate|].
  destruct (handleDDLJobQueue_iter d (S fuel) sc false w) as [[[out o1] w1]|] eqn:Hit;
    [|discriminate].
  apply handleDDLJobQueue_iter_once_false in Hit as (-> & H1).
  destruct out as [e|].
  - intros [= <- <-]. exact H1.
  - intros Hrec. apply IH in Hrec. eapply emitsOnly_trans; eassumption.
Qed.

(** ** The resynchronization wait: claim C4 *)

(** C4, as the claim states it, fails twice over.  First, a pass does not
    stop after the wait: here one pass resynchronizes in its first
    iteration, dispatches the Running job in its second, and finalizes it
    into the archive in its third.  Second, the wait is not confined to one
    iteration per owner incarnation: [once] is a local of
    [handleDDLJobQueue], so every pass starts with it set.  With a store
    that refuses the update of the job, two passes of one and the same
    incarnation each resynchronize. *)
Lemma handleDDLJobQueue_resync_every_pass :
  (let d := sampleDDL 1 (fun _ => true) (handlerFinish 5) in
   let job := sampleJob 8 ActionAddColumn 3 JobStateRunning StateWriteOnly in
   let w := sampleWorld (sampleStore [job] [] noFault) in
   exists w',
     handleDDLJobQueue d 4 false w = Some (None, w')
     /\ countEvents isResync (trace w') = 1%nat
     /\ countEvents isDispatch (trace w') = 1%nat
     /\ (State <$> historyJobs (store w') !! 8) = Some JobStateSynced
     /\ defaultJobs (store w') = [])
  /\ (let d := sampleDDL 1 (fun _ => true) (handlerKeep 5) in
      let job := sampleJob 8 ActionAddColumn 3 JobStateRunning StateWriteOnly in
      let w := sampleWorld
                 (sampleStore [job] [] (faultOn OpUpdateDDLJob (PlainErr "conflict"))) in
      exists w',
        onDDLWorker d 3 [TickerC; TickerC; TickerC] w = inl (Some (false, w'))
        /\ ownerIncarnations (trace w') = 1%nat
        /\ countEvents isResync (trace w') = 2%nat).
Proof.
  split; eexists; (split; [vm_compute; reflexivity|]); vm_compute; repeat split.
Qed.

(** C4, amended.  The resynchronization wait belongs to the pass, not to
    the owner incarnation: every call of [handleDDLJobQueue] starts with
    [once] set.  The first iteration of a pass that finds a head job (as
    owner, with the migration flag clear) runs [waitSchemaSynced] on it
    instead of dispatching it: the store, the job and the range deletions
    are untouched, no job is handed to the runner, and the global version
    is read exactly when the job is Running, RollingBack, Done or
    RollbackDone.  That iteration clears [once] and the pass goes on with
    the next iteration; no later iteration of the same pass
    resynchronizes, so a pass resynchronizes at most once. *)
Theorem handleDDLJobQueue_resync_once_per_pass (d : ddl) (fuel : nat) (w : World) :
  (forall job rest,
     isClosed w = false ->
     ownerManager d (now w) = true ->
     fault (store w) OpGetDDLJob = None ->
     fault (store w) OpCommit = None ->
     defaultJobs (store w) = job :: rest ->
     exists w' syncerCalls,
       handleDDLJobQueue_iter d fuel false true w = Some (IterContinue, false, w')
       /\ store w' = store w
       /\ delRangeJobs w' = delRangeJobs w
       /\ trace w'
          = trace w ++ EvIsOwner true
              :: (if needsSchemaWait job
                  then EvMustGetGlobalVersion :: syncerCalls else [])
              ++ EvOnJobUpdated job
              :: (if IsSynced job then [EvNotifyJobDone] else [])
       /\ Forall evSyncer syncerCalls
       /\ countEvents isDispatch (trace w') = countEvents isDispatch (trace w))
  /\ (forall shouldCleanJobs err w',
        handleDDLJobQueue_loop d fuel shouldCleanJobs false w = Some (err, w') ->
        countEvents isResync (trace w') = countEvents isResync (trace w))
  /\ (forall shouldCleanJobs err w',
        handleDDLJobQueue d fuel shouldCleanJobs w = Some (err, w') ->
        (countEvents isResync (trace w') <= S (countEvents isResync (trace w)))%nat).
Proof.
  split; [|split].
  - intros job rest Hclosed Howner Hget Hcommit Hqueue.
    unfold handleDDLJobQueue_iter. rewrite Hclosed.
    unfold handleDDLJobQueue_txn, isOwner. rewrite Howner. simpl.
    unfold getFirstDDLJob, GetDDLJob. simpl. rewrite Hget.
    unfold jobList. simpl. rewrite Hqueue. simpl.
    unfold endTxn. rewrite Hcommit. simpl.
    set (w0 := emit (EvIsOwner true) w).
    destruct (waitSchemaSynced_trace d job (wrap64 (2 * lease d)) w0) as (calls & Htr & HF).
    destruct (waitSchemaSynced_frame d job (wrap64 (2 * lease d)) w0) as (Hs & Hc & Hd).
    set (w1 := waitSchemaSynced d job (wrap64 (2 * lease d)) w0) in *.
    set (w2 := emit (EvOnJobUpdated job) (setStore (store w) w1)).
    assert ((if IsRunning job || IsRollingback job || IsDone job || IsRollbackDone job
             then waitSchemaChanged d ctxNil (wrap64 (2 * lease d)) 0 w2 else w2) = w2)
      as ->.
    { destruct (IsRunning job || IsRollingback job || IsDone job || IsRollbackDone job);
        [|reflexivity]. apply waitSchemaChanged_skipped. auto. }
    eexists. exists calls. split; [reflexivity|].
    assert (trace w1 = trace w ++ EvIsOwner true
                         :: (if needsSchemaWait job
                             then EvMustGetGlobalVersion :: calls else [])) as Htr1.
    { rewrite Htr. unfold w0. rewrite trace_emit, <- app_assoc. reflexivity. }
    assert (countEvents isDispatch calls = 0%nat) as Hz
      by exact (countEvents_none _ _ _ evSyncer_notDispatch HF).
    destruct (IsSynced job); simpl; rewrite Htr1;
      (split; [reflexivity|]); (split; [exact Hd|]);
      (split; [rewrite <- !app_assoc; reflexivity|]);
      (split; [exact HF|]);
      rewrite !countEvents_app; simpl;
      destruct (needsSchemaWait job); simpl; rewrite ?Hz; lia.
  - intros sc err w' Hloop. apply handleDDLJobQueue_loop_once_false in Hloop.
    apply (emitsOnly_count notResync); [auto | exact Hloop].
  - intros sc err w'. unfold handleDDLJobQueue.
    destruct fuel as [|fuel]; simpl; [discriminate|].
    destruct (handleDDLJobQueue_iter d (S fuel) sc true w) as [[[out o1] w1]|] eqn:Hit;
      [|discriminate].
    apply handleDDLJobQueue_iter_once_true in Hit as (Honce & Hle & _).
    destruct out as [e|].
    + intros [= <- <-]. exact Hle.
    + rewrite (Honce eq_refl). intros Hloop.
      apply handleDDLJobQueue_loop_once_false in Hloop.
      rewrite (emitsOnly_count notResync isResync _ _ (fun e H => H) Hloop). exact Hle.
Qed.

Lemma handleDDLJobQueue_resync_once_per_pass_witness :
  let d := sampleDDL 1 (fun _ => true) (handlerFinish 5) in
  let job := sampleJob 8 ActionAddColumn 3 JobStateRunning StateWriteOnly in
  let w := sampleWorld (sampleStore [job] [] noFault) in
  exists w',
    handleDDLJobQueue_iter d 1 false true w = Some (IterContinue, false, w')
    /\ store w' = store w
    /\ countEvents isDispatch (trace w') = 0%nat.
Proof.
  intros d job w.
  destruct (handleDDLJobQueue_resync_once_per_pass d 1 w) as (Hfirst & _ & _).
  destruct (Hfirst job [] eq_refl eq_refl eq_refl eq_refl eq_refl)
    as (w' & calls & Hit & Hs & _ & _ & _ & Hd).
  exists w'. split; [exact Hit|]. split; [exact Hs|]. rewrite Hd. reflexivity.
Defined.

(** ** The legacy-queue migration and its flag: claim C5 *)

Lemma handleDDLJobQueue_iter_trace
    (d : ddl) (fuel : nat) (shouldCleanJobs once once' : bool) (w w' : World)
    (out : IterOutcome) :
  handleDDLJobQueue_iter d fuel shouldCleanJobs once w = Some (out, once', w') ->
  emitsOnly (fun e => evTxn shouldCleanJobs once e \/ evAfterTxn e) w w'
  /\ (once = false -> once' = false)
  /\ (shouldCleanJobs = true -> exists e, out = IterReturn e).
Proof.
  intros H. apply handleDDLJobQueue_iter_inv in H
    as [(_ & -> & -> & ->)
       | (_ & w1 & tx & job & ver & rerr & err & Htxn & Hpost & _ & Hnone)].
  - split; [apply emitsOnly_refl|]. split; [auto|]. eauto.
  - apply handleDDLJobQueue_txn_trace in Htxn as (He & _ & _ & Ho & Hsc).
    split; [|split; [exact Ho|]].
    + eapply emitsOnly_trans;
        [eapply emitsOnly_weaken; [|exact He] | eapply emitsOnly_weaken; [|exact Hpost]];
        simpl; auto.
    + intros Hc. destruct (Hsc Hc) as [-> _]. apply Hnone. reflexivity.
Qed.

Lemma handleDDLJobQueue_loop_no_migration (d : ddl) (fuel : nat) :
  forall (once : bool) (w w' : World) (err : option error),
    handleDDLJobQueue_loop d fuel false once w = Some (err, w') ->
    emitsOnly notMigration w w'.
Proof.
  induction fuel as [|fuel IH]; intros once w w' err; simpl; [discriminate|].
  destruct (handleDDLJobQueue_iter d (S fuel) false once w) as [[[out o1] w1]|] eqn:Hit;
    [|discriminate].
  apply handleDDLJobQueue_iter_trace in Hit as (He & _ & _).
  assert (emitsOnly notMigration w w1) as H1.
  { eapply emitsOnly_weaken; [|exact He].
    intros e [H|H]; [exact (evTxn_notMigration _ _ H)|].
    destruct e; simpl in H; try contradiction; reflexivity. }
  destruct out as [e|].
  - intros [= <- <-]. exact H1.
  - intros Hrec. apply IH in Hrec. eapply emitsOnly_trans; eassumption.
Qed.

Lemma finishDDLJob_key (d : ddl) (t t' : Meta) (job job' : Job) (w w' : World)
    (err : option error) :
  finishDDLJob d t job w = (w', t', job', err) -> jobListKey t' = jobListKey t.
Proof.
  rewrite finishDDLJob_unfold.
  destruct (if needsDeleteRange job then deleteRange d job w else (w, None))
    as [w1 [e|]]; [intros [= _ <- _ _]; reflexivity|].
  destruct (DeQueueDDLJob t) as [t1 [r|e1]] eqn:Hdq.
  - apply DeQueueDDLJob_ok in Hdq as (_ & _ & _ & Hk & _).
    unfold AddHistoryDDLJob.
    destruct (fault (txn t1) OpAddHistoryDDLJob); intros [= _ <- _ _]; exact Hk.
  - apply DeQueueDDLJob_err in Hdq as [-> _]. intros [= _ <- _ _]. reflexivity.
Qed.

Lemma getFirstDDLJob_none (m : Meta) :
  getFirstDDLJob m = inl None -> jobList m = [].
Proof.
  unfold getFirstDDLJob, GetDDLJob.
  destruct (fault (txn m) OpGetDDLJob); [discriminate|].
  destruct (jobList m); [reflexivity | discriminate].
Qed.

(** A drain that returns without error has emptied the legacy queue. *)
Lemma cleanAddIndexQueueJobs_loop_drained (d : ddl) (fuel : nat) :
  forall (m m' : Meta) (w w' : World),
    jobListKey m = AddIndexJobListKey ->
    cleanAddIndexQueueJobs_loop d fuel m w = Some (w', m', None) ->
    addIndexJobs (txn m') = [].
Proof.
  induction fuel as [|fuel IH]; intros m m' w w' Hkey; simpl; [discriminate|].
  destruct (getFirstDDLJob m) as [[job|]|e] eqn:Hget.
  - destruct (bool_decide (SchemaState_ job = StatePublic)
              || bool_decide (SchemaState_ job = StateNone)).
    + destruct (if bool_decide (SchemaState_ job = StateNone)
                then (emit (EvLog (LogCleaningJob (ID job))) w,
                      setState JobStateCancelled job)
                else (emit (EvSetDDLBinlog (ID job) (Query job))
                        (emit (EvLog (LogCleaningJob (ID job))) w),
                      setState JobStateSynced job)) as [w0 j0].
      destruct (finishDDLJob d m j0 w0) as [[[w1 m1] j1] [e1|]] eqn:Hfin;
        [discriminate|].
      apply finishDDLJob_key in Hfin. apply IH. congruence.
    + destruct (getTableInfo d m job (SchemaID job)) as [tbl|e]; [|discriminate].
      destruct (DecodeArgs d job) as [j1 [[unique indexName]|e]]; [|discriminate].
      destruct (convert2RollbackJob d m j1 tbl _) as [[[m1 j2] v] cerr].
      destruct (match cerr with
                | Some err0 => (m1, Some err0)
                | None => match DeQueueDDLJob m1 with
                          | (m2, inl _) => (m2, None)
                          | (m2, inr err0) => (m2, Some err0)
                          end
                end) as [m2 [e|]]; [discriminate|].
      destruct (EnQueueDDLJob (SetJobListKey DefaultJobListKey m2) j2) as [m3 [e|]];
        [discriminate|].
      apply IH. reflexivity.
  - intros [= _ <-]. apply getFirstDDLJob_none in Hget.
    unfold jobList in Hget. rewrite Hkey in Hget. exact Hget.
  - discriminate.
Qed.

(** C5, as the claim states it, fails.  The gate of the migration is the
    local [shouldCleanJobs] of [onDDLWorker], not anything the store keeps.
    First, a worker that is owner, loses ownership and regains it goes
    through two owner incarnations and runs the migration once, in the
    first.  Second, on one and the same store, holding a legacy job and a
    current job, the pass drains the legacy queue when the flag is set and,
    when the flag is clear, leaves the legacy job where it is and processes
    the current job. *)
Lemma onDDLWorker_migration_gate_in_memory :
  (let d := sampleDDL 1 (fun n => negb (n =? 3)%nat) (handlerFinish 5) in
   let w := sampleWorld (sampleStore [] [] noFault) in
   exists w',
     onDDLWorker d 3 [TickerC; TickerC; TickerC] w = inl (Some (false, w'))
     /\ ownerIncarnations (trace w') = 2%nat
     /\ countEvents isMigration (trace w') = 1%nat)
  /\ (let d := sampleDDL 1 (fun _ => true) (handlerFinish 5) in
      let legacy := sampleJob 7 ActionAddIndex 3 JobStateRunning StateWriteOnly in
      let job := sampleJob 8 ActionAddColumn 4 JobStateQueued StateNone in
      let w := sampleWorld (sampleStore [job] [legacy] noFault) in
      exists w1 w2,
        handleDDLJobQueue d 4 true w = Some (None, w1)
        /\ addIndexJobs (store w1) = []
        /\ countEvents isDispatch (trace w1) = 0%nat
        /\ handleDDLJobQueue d 4 false w = Some (None, w2)
        /\ addIndexJobs (store w2) = [legacy]
        /\ countEvents isDispatch (trace w2) = 1%nat
        /\ (State <$> historyJobs (store w2) !! 8) = Some JobStateSynced).
Proof.
  split.
  - eexists. split; [vm_compute; reflexivity|]. vm_compute. repeat split.
  - do 2 eexists. split; [vm_compute; reflexivity|].
    split; [vm_compute; reflexivity|]. split; [vm_compute; reflexivity|].
    split; [vm_compute; reflexivity|]. vm_compute. repeat split.
Qed.

Lemma handleDDLJobQueue_clean_pass (d : ddl) (fuel : nat) (w : World) :
  isClosed w = false ->
  ownerManager d (now w) = true ->
  handleDDLJobQueue d (S fuel) true w
  = match cleanAddIndexQueueJobs d (S fuel) (store w) (beginTS d (now w))
            (emit (EvIsOwner true) w) with
    | None => None
    | Some (w1, m, err) =>
        let '(w2, err') := endTxn (txn m) err w1 in Some (err', w2)
    end.
Proof.
  intros Hclosed Howner. unfold handleDDLJobQueue. simpl.
  unfold handleDDLJobQueue_iter. rewrite Hclosed.
  unfold handleDDLJobQueue_txn, isOwner. rewrite Howner. simpl.
  destruct (cleanAddIndexQueueJobs d (S fuel) _ _ _) as [[[w1 m] err]|]; [|reflexivity].
  destruct (endTxn (txn m) err w1) as [w2 [e|]]; reflexivity.
Qed.

(** C5, amended.  The legacy-queue migration is gated by an in-memory flag
    of the worker loop, [shouldCleanJobs], set when the worker starts; no
    marker is persisted.  While the flag is set, a drain pass of the owner
    is the migration alone, in one transaction, and no pass with the flag
    set hands a current-queue job to the runner; such a pass of the owner
    that returns without error has drained the legacy queue to empty, and
    the worker then clears the flag; a pass that returns an error leaves
    the flag set, so the next pass tries again.  Once cleared the flag is
    never set again: no later pass of that worker runs the migration,
    whatever happens to ownership in between. *)
Theorem onDDLWorker_migration_flag (d : ddl) (fuel : nat) (w : World) :
  (isClosed w = false -> ownerManager d (now w) = true ->
   handleDDLJobQueue d (S fuel) true w
   = match cleanAddIndexQueueJobs d (S fuel) (store w) (beginTS d (now w))
             (emit (EvIsOwner true) w) with
     | None => None
     | Some (w1, m, err) =>
         let '(w2, err') := endTxn (txn m) err w1 in Some (err', w2)
     end)
  /\ (forall err w',
        handleDDLJobQueue d fuel true w = Some (err, w') ->
        countEvents isDispatch (trace w') = countEvents isDispatch (trace w))
  /\ (forall w' sig signals,
        isClosed w = false -> ownerManager d (now w) = true ->
        handleDDLJobQueue d fuel true w = Some (None, w') ->
        sig <> QuitCh ->
        addIndexJobs (store w') = []
        /\ onDDLWorker_loop d fuel (sig :: signals) true w
           = onDDLWorker_loop d fuel signals false (emit (EvLog LogCleaningFinished) w'))
  /\ (forall e w' sig signals,
        handleDDLJobQueue d fuel true w = Some (Some e, w') ->
        sig <> QuitCh ->
        onDDLWorker_loop d fuel (sig :: signals) true w
        = onDDLWorker_loop d fuel signals true w')
  /\ (forall signals flag' w',
        onDDLWorker_loop d fuel signals false w = Some (flag', w') ->
        flag' = false
        /\ countEvents isMigration (trace w') = countEvents isMigration (trace w)).
Proof.
  split; [apply handleDDLJobQueue_clean_pass|].
  split; [|split; [|split]].
  - intros err w'. unfold handleDDLJobQueue.
    destruct fuel as [|n]; simpl; [discriminate|].
    destruct (handleDDLJobQueue_iter d (S n) true true w) as [[[out o1] w1]|] eqn:Hit;
      [|discriminate].
    apply handleDDLJobQueue_iter_trace in Hit as Halpha. destruct Halpha as (_ & _ & Hret).
    destruct (Hret eq_refl) as [e ->].
    apply handleDDLJobQueue_iter_once_true in Hit as (_ & _ & Hd).
    intros [= <- <-]. apply (emitsOnly_count notDispatch); [auto | exact Hd].
  - intros w' sig signals Hclosed Howner Hpass Hsig.
    split.
    + destruct fuel as [|n]; [discriminate|].
      rewrite (handleDDLJobQueue_clean_pass d n w Hclosed Howner) in Hpass.
      unfold cleanAddIndexQueueJobs in Hpass.
      destruct (cleanAddIndexQueueJobs_loop d (S n) _ _) as [[[w1 m] err]|] eqn:Hclean;
        [|discriminate].
      destruct (endTxn (txn m) err w1) as [w2 err'] eqn:Hend.
      injection Hpass as -> ->.
      apply endTxn_trace in Hend as (_ & _ & _ & Hok & _).
      destruct (Hok eq_refl) as [-> ->].
      eapply cleanAddIndexQueueJobs_loop_drained; [|exact Hclean]. reflexivity.
    + simpl. rewrite Hpass. destruct sig; [reflexivity | reflexivity | contradiction].
  - intros e w' sig signals Hpass Hsig. simpl. rewrite Hpass.
    destruct sig; [reflexivity | reflexivity | contradiction].
  - intros signals. revert w.
    induction signals as [|sig signals IH]; intros w flag' w'; simpl.
    + intros [= <- <-]. auto.
    + assert (forall r, match handleDDLJobQueue d fuel false w with
                        | Some (Some _, w0) => onDDLWorker_loop d fuel signals false w0
                        | Some (None, w0) => onDDLWorker_loop d fuel signals false w0
                        | None => None
                        end = Some r ->
                        fst r = false
                        /\ countEvents isMigration (trace (snd r))
                           = countEvents isMigration (trace w)) as Hstep.
      { intros [f1 w1].
        destruct (handleDDLJobQueue d fuel false w) as [[err w0]|] eqn:Hpass;
          [|discriminate].
        apply handleDDLJobQueue_loop_no_migration in Hpass.
        pose proof (emitsOnly_count notMigration isMigration _ _ (fun e H => H) Hpass)
          as Hcount.
        destruct err; intros Hrec; apply IH in Hrec as [-> Hc]; simpl;
          (split; [reflexivity | congruence]). }
      destruct sig; try (intros H; exact (Hstep _ H)).
      intros [= <- <-]. auto.
Qed.

Lemma onDDLWorker_migration_flag_witness :
  let d := sampleDDL 1 (fun _ => true) (handlerFinish 5) in
  let legacy := sampleJob 7 ActionAddIndex 3 JobStateRunning StateWriteOnly in
  let job := sampleJob 8 ActionAddColumn 4 JobStateQueued StateNone in
  let w := sampleWorld (sampleStore [job] [legacy] noFault) in
  exists w',
    handleDDLJobQueue d 4 true w = Some (None, w')
    /\ addIndexJobs (store w') = []
    /\ onDDLWorker_loop d 4 [TickerC] true w
       = Some (false, emit (EvLog LogCleaningFinished) w').
Proof.
  intros d legacy job w.
  destruct (handleDDLJobQueue d 4 true w) as [[err w']|] eqn:Hpass;
    [|vm_compute in Hpass; discriminate].
  assert (err = None) as -> by (vm_compute in Hpass; congruence).
  destruct (onDDLWorker_migration_flag d 4 w) as (_ & _ & Hok & _ & _).
  destruct (Hok w' TickerC [] eq_refl eq_refl Hpass) as [Hempty Hloop];
    [discriminate|].
  exists w'. split; [reflexivity|]. split; [exact Hempty|]. exact Hloop.
Defined.

(** ** The legacy-queue drain: claim C7 *)

Lemma getFirstDDLJob_some (m : Meta) (job : Job) :
  getFirstDDLJob m = inl (Some job) -> exists rest, jobList m = job :: rest.
Proof.
  unfold getFirstDDLJob, GetDDLJob.
  destruct (fault (txn m) OpGetDDLJob); [discriminate|].
  destruct (jobList m) as [|j rest]; [discriminate|].
  intros [= ->]. eauto.
Qed.

Lemma DeQueueDDLJob_legacy (m m' : Meta) (r : option Job) :
  jobListKey m = AddIndexJobListKey ->
  DeQueueDDLJob m = (m', inl r) ->
  addIndexJobs (txn m') = tail (addIndexJobs (txn m))
  /\ defaultJobs (txn m') = defaultJobs (txn m)
  /\ historyJobs (txn m') = historyJobs (txn m)
  /\ StartTS m' = StartTS m /\ jobListKey m' = AddIndexJobListKey.
Proof.
  intros Hkey. unfold DeQueueDDLJob, jobList, setJobList. rewrite Hkey.
  destruct (fault (txn m) OpDeQueueDDLJob); [discriminate|].
  destruct (addIndexJobs (txn m)) as [|j rest] eqn:Hl; intros [= <- _]; simpl;
    rewrite ?Hl; auto.
Qed.

Lemma EnQueueDDLJob_default (m m' : Meta) (job : Job) :
  EnQueueDDLJob (SetJobListKey DefaultJobListKey m) job = (m', None) ->
  defaultJobs (txn m') = defaultJobs (txn m) ++ [job]
  /\ addIndexJobs (txn m') = addIndexJobs (txn m)
  /\ historyJobs (txn m') = historyJobs (txn m)
  /\ StartTS m' = StartTS m.
Proof.
  unfold EnQueueDDLJob, jobList, setJobList. simpl.
  destruct (fault (txn m) OpEnQueueDDLJob); [discriminate|].
  intros [= <-]. simpl. auto.
Qed.

Lemma finishDDLJob_legacy (d : ddl) (t t' : Meta) (job job' : Job) (w w' : World) :
  jobListKey t = AddIndexJobListKey ->
  finishDDLJob d t job w = (w', t', job', None) ->
  addIndexJobs (txn t') = tail (addIndexJobs (txn t))
  /\ defaultJobs (txn t') = defaultJobs (txn t)
  /\ historyJobs (txn t') = <[ID job := stampFinished t job]> (historyJobs (txn t))
  /\ StartTS t' = StartTS t /\ jobListKey t' = AddIndexJobListKey.
Proof.
  intros Hkey. rewrite finishDDLJob_unfold.
  destruct (if needsDeleteRange job then deleteRange d job w else (w, None))
    as [w1 [e|]]; [discriminate|].
  destruct (DeQueueDDLJob t) as [t1 [r|e1]] eqn:Hdq; [|discriminate].
  apply (DeQueueDDLJob_legacy _ _ _ Hkey) in Hdq as (Hl & Hdq & Hh & Hts & Hk).
  unfold AddHistoryDDLJob, setHistory.
  destruct (fault (txn t1) OpAddHistoryDDLJob); [discriminate|].
  intros [= _ <- _]. simpl.
  unfold stampFinished. rewrite Hts, Hh. auto.
Qed.

(** With fuel beyond the length of the legacy queue the drain returns. *)
Lemma cleanAddIndexQueueJobs_loop_returns (d : ddl) (fuel : nat) :
  convertKeepsQueues d ->
  forall (m : Meta) (w : World),
    jobListKey m = AddIndexJobListKey ->
    (length (addIndexJobs (txn m)) < fuel)%nat ->
    exists r, cleanAddIndexQueueJobs_loop d fuel m w = Some r.
Proof.
  intros Hconv. induction fuel as [|fuel IH]; intros m w Hkey Hlen; [lia|]. simpl.
  destruct (getFirstDDLJob m) as [[job|]|e] eqn:Hget; [|eauto|eauto].
  apply getFirstDDLJob_some in Hget as (rest & Hl).
  unfold jobList in Hl. rewrite Hkey in Hl. rewrite Hl in Hlen. simpl in Hlen.
  destruct (bool_decide (SchemaState_ job = StatePublic)
            || bool_decide (SchemaState_ job = StateNone)).
  - destruct (if bool_decide (SchemaState_ job = StateNone)
              then (emit (EvLog (LogCleaningJob (ID job))) w,
                    setState JobStateCancelled job)
              else (emit (EvSetDDLBinlog (ID job) (Query job))
                      (emit (EvLog (LogCleaningJob (ID job))) w),
                    setState JobStateSynced job)) as [w0 j0].
    destruct (finishDDLJob d m j0 w0) as [[[w1 m1] j1] [e1|]] eqn:Hfin; [eauto|].
    apply (finishDDLJob_legacy _ _ _ _ _ _ _ Hkey) in Hfin as (Hl1 & _ & _ & _ & Hk1).
    apply IH; [exact Hk1|]. rewrite Hl1, Hl. simpl. lia.
  - destruct (getTableInfo d m job (SchemaID job)) as [tbl|e]; [|eauto].
    destruct (DecodeArgs d job) as [j1 [[unique indexName]|e]]; [|eauto].
    pose proof (Hconv m j1 tbl (findIndexByName d indexName (Indices tbl))) as Hkept.
    destruct (convert2RollbackJob d m j1 tbl _) as [[[m1 j2] v] [cerr|]]; [eauto|].
    simpl in Hkept. destruct Hkept as (Hk1 & _ & _ & Hl1 & _).
    destruct (DeQueueDDLJob m1) as [m2 [r|e]] eqn:Hdq; [|eauto].
    apply DeQueueDDLJob_legacy in Hdq as (Hl2 & _ & _ & _ & _); [|congruence].
    destruct (EnQueueDDLJob (SetJobListKey DefaultJobListKey m2) j2) as [m3 [e|]] eqn:Henq;
      [eauto|].
    apply EnQueueDDLJob_default in Henq as (_ & Hl3 & _ & _).
    apply IH; [reflexivity|]. simpl. rewrite Hl3, Hl2, Hl1, Hl. simpl. lia.
Qed.

(** What a successful drain leaves behind. *)
Lemma cleanAddIndexQueueJobs_loop_result (d : ddl) (fuel : nat) :
  convertKeepsQueues d ->
  forall (m m' : Meta) (w w' : World),
    jobListKey m = AddIndexJobListKey ->
    cleanAddIndexQueueJobs_loop d fuel m w = Some (w', m', None) ->
    addIndexJobs (txn m') = []
    /\ historyJobs (txn m')
       = archiveAll (StartTS m) (historyJobs (txn m))
           (filter (fun job => isPublicOrNone job = true) (addIndexJobs (txn m)))
    /\ exists enqueued,
         defaultJobs (txn m') = defaultJobs (txn m) ++ enqueued
         /\ Forall2 (legacyConverted d)
              (filter (fun job => isPublicOrNone job <> true) (addIndexJobs (txn m)))
              enqueued.
Proof.
  intros Hconv. induction fuel as [|fuel IH]; intros m m' w w' Hkey; simpl;
    [discriminate|].
  destruct (getFirstDDLJob m) as [[job|]|e] eqn:Hget; [| |discriminate].
  2:{ intros [= _ <-]. apply getFirstDDLJob_none in Hget.
      unfold jobList in Hget. rewrite Hkey in Hget. rewrite Hget.
      split; [reflexivity|]. split; [reflexivity|].
      exists []. rewrite app_nil_r. split; [reflexivity | constructor]. }
  apply getFirstDDLJob_some in Hget as (rest & Hl).
  unfold jobList in Hl. rewrite Hkey in Hl. rewrite Hl.
  fold (isPublicOrNone job). destruct (isPublicOrNone job) eqn:Hpn.
  - rewrite filter_cons_True by exact Hpn.
    rewrite filter_cons_False by (rewrite Hpn; auto).
    assert ((if bool_decide (SchemaState_ job = StateNone)
             then (emit (EvLog (LogCleaningJob (ID job))) w,
                   setState JobStateCancelled job)
             else (emit (EvSetDDLBinlog (ID job) (Query job))
                     (emit (EvLog (LogCleaningJob (ID job))) w),
                   setState JobStateSynced job))
            = (if bool_decide (SchemaState_ job = StateNone)
               then emit (EvLog (LogCleaningJob (ID job))) w
               else emit (EvSetDDLBinlog (ID job) (Query job))
                      (emit (EvLog (LogCleaningJob (ID job))) w),
               setState (if bool_decide (SchemaState_ job = StateNone)
                         then JobStateCancelled else JobStateSynced) job)) as ->
      by (destruct (bool_decide (SchemaState_ job = StateNone)); reflexivity).
    destruct (finishDDLJob d m _ _) as [[[w1 m1] j1] [e1|]] eqn:Hfin; [discriminate|].
    apply (finishDDLJob_legacy _ _ _ _ _ _ _ Hkey) in Hfin
      as (Hl1 & Hd1 & Hh1 & Hts1 & Hk1).
    intros Hrec. apply (IH _ _ _ _ Hk1) in Hrec as (Hempty & Hhist & enq & Hdef & Hconvd).
    rewrite Hl1, Hl in Hhist, Hconvd. simpl in Hhist, Hconvd.
    split; [exact Hempty|]. split.
    + rewrite Hhist, Hh1, Hts1. reflexivity.
    + exists enq. rewrite Hdef, Hd1. auto.
  - rewrite filter_cons_False by (rewrite Hpn; discriminate).
    rewrite filter_cons_True by (rewrite Hpn; discriminate).
    destruct (getTableInfo d m job (SchemaID job)) as [tbl|e] eqn:Htbl; [|discriminate].
    destruct (DecodeArgs d job) as [j1 [[unique indexName]|e]] eqn:Hdec; [|discriminate].
    pose proof (Hconv m j1 tbl (findIndexByName d indexName (Indices tbl))) as Hkept.
    destruct (convert2RollbackJob d m j1 tbl _) as [[[m1 j2] v] [cerr|]] eqn:Hcv;
      [discriminate|].
    simpl in Hkept. destruct Hkept as (Hk1 & Hts1 & Hd1 & Hl1 & Hh1).
    destruct (DeQueueDDLJob m1) as [m2 [r|e]] eqn:Hdq; [|discriminate].
    apply DeQueueDDLJob_legacy in Hdq as (Hl2 & Hd2 & Hh2 & Hts2 & _); [|congruence].
    destruct (EnQueueDDLJob (SetJobListKey DefaultJobListKey m2) j2) as [m3 [e|]] eqn:Henq;
      [discriminate|].
    apply EnQueueDDLJob_default in Henq as (Hd3 & Hl3 & Hh3 & Hts3).
    intros Hrec.
    apply (IH (SetJobListKey AddIndexJobListKey m3)) in Hrec
      as (Hempty & Hhist & enq & Hdef & Hconvd); [|reflexivity].
    simpl in Hhist, Hdef, Hconvd.
    rewrite Hl3, Hl2, Hl1, Hl in Hhist, Hconvd. simpl in Hhist, Hconvd.
    split; [exact Hempty|]. split.
    + rewrite Hhist, Hh3, Hh2, Hh1, Hts3, Hts2, Hts1. reflexivity.
    + exists (j2 :: enq). split.
      * rewrite Hdef, Hd3, Hd2, Hd1, <- app_assoc. reflexivity.
      * constructor; [|exact Hconvd].
        exists m, tbl, j1, unique, indexName, m1, v. auto.
Qed.

Lemma setJobList_fault (l : list Job) (m : Meta) :
  fault (txn (setJobList l m)) = fault (txn m).
Proof. unfold setJobList. destruct (jobListKey m); reflexivity. Qed.

Lemma DeQueueDDLJob_fault (m m' : Meta) (r : option Job + error) :
  DeQueueDDLJob m = (m', r) -> fault (txn m') = fault (txn m).
Proof.
  unfold DeQueueDDLJob. destruct (fault (txn m) OpDeQueueDDLJob).
  - intros [= <- _]. reflexivity.
  - destruct (jobList m); intros [= <- _]; [reflexivity | apply setJobList_fault].
Qed.

Lemma EnQueueDDLJob_fault (m m' : Meta) (job : Job) (r : option error) :
  EnQueueDDLJob m job = (m', r) -> fault (txn m') = fault (txn m).
Proof.
  unfold EnQueueDDLJob. destruct (fault (txn m) OpEnQueueDDLJob);
    intros [= <- _]; [reflexivity | apply setJobList_fault].
Qed.

(** Finalization of a job that needs no range deletion succeeds on a store
    that accepts the dequeue and the append. *)
Lemma finishDDLJob_accepted (d : ddl) (t : Meta) (job : Job) (w : World) :
  needsDeleteRange job = false ->
  fault (txn t) OpDeQueueDDLJob = None ->
  fault (txn t) OpAddHistoryDDLJob = None ->
  exists t' job',
    finishDDLJob d t job w = (w, t', job', None)
    /\ fault (txn t') = fault (txn t).
Proof.
  intros Hn Hdq Hadd. rewrite finishDDLJob_unfold, Hn.
  destruct (DeQueueDDLJob t) as [t1 r] eqn:H1.
  pose proof (DeQueueDDLJob_fault _ _ _ H1) as Hf1.
  unfold DeQueueDDLJob in H1. rewrite Hdq in H1.
  assert (exists r', r = inl r') as [r' ->]
    by (destruct (jobList t); injection H1 as _ <-; eauto).
  unfold AddHistoryDDLJob. rewrite Hf1, Hadd.
  do 2 eexists. split; [reflexivity|]. simpl. exact Hf1.
Qed.

(** On a store that accepts its operations, with collaborators that
    succeed, the drain of a queue of AddIndex jobs returns without error. *)
Lemma cleanAddIndexQueueJobs_loop_succeeds (d : ddl) (fuel : nat) :
  convertKeepsQueues d -> conversionSucceeds d ->
  forall (m : Meta) (w : World),
    jobListKey m = AddIndexJobListKey ->
    drainOpsAccepted (txn m) ->
    Forall (fun job => Type_ job = ActionAddIndex) (addIndexJobs (txn m)) ->
    (length (addIndexJobs (txn m)) < fuel)%nat ->
    exists w' m', cleanAddIndexQueueJobs_loop d fuel m w = Some (w', m', None).
Proof.
  intros Hconv (Htbl & Hdec & Hcv).
  induction fuel as [|fuel IH]; intros m w Hkey Hacc Hty Hlen; [lia|]. simpl.
  destruct Hacc as (Hget & Hdq & Henq & Hadd).
  unfold getFirstDDLJob, GetDDLJob. rewrite Hget.
  unfold jobList at 1. rewrite Hkey.
  destruct (addIndexJobs (txn m)) as [|job rest] eqn:Hl; simpl; [eauto|].
  apply Forall_cons in Hty as [Hjob Hrest]. simpl in Hlen.
  destruct (bool_decide (SchemaState_ job = StatePublic)
            || bool_decide (SchemaState_ job = StateNone)).
  - assert (exists w0 j0,
              (if bool_decide (SchemaState_ job = StateNone)
               then (emit (EvLog (LogCleaningJob (ID job))) w,
                     setState JobStateCancelled job)
               else (emit (EvSetDDLBinlog (ID job) (Query job))
                       (emit (EvLog (LogCleaningJob (ID job))) w),
                     setState JobStateSynced job)) = (w0, j0)
              /\ needsDeleteRange j0 = false) as (w0 & j0 & -> & Hn).
    { destruct (bool_decide (SchemaState_ job = StateNone)); do 2 eexists;
        (split; [reflexivity|]); unfold needsDeleteRange; simpl; rewrite Hjob;
        reflexivity. }
    destruct (finishDDLJob_accepted d m j0 w0 Hn Hdq Hadd) as (m1 & j1 & Hfin & Hf1).
    rewrite Hfin.
    apply (finishDDLJob_legacy _ _ _ _ _ _ _ Hkey) in Hfin as (Hl1 & _ & _ & _ & Hk1).
    apply IH; [exact Hk1 | | rewrite Hl1, Hl; exact Hrest | rewrite Hl1, Hl; simpl; lia].
    unfold drainOpsAccepted. rewrite Hf1. auto.
  - destruct (Htbl m job) as [tbl ->].
    destruct (Hdec job) as (j1 & [unique indexName] & ->).
    pose proof (Hconv m j1 tbl (findIndexByName d indexName (Indices tbl))) as Hkept.
    pose proof (Hcv m j1 tbl (findIndexByName d indexName (Indices tbl))) as [Hnone Hf1].
    destruct (convert2RollbackJob d m j1 tbl _) as [[[m1 j2] v] cerr].
    simpl in Hkept, Hnone, Hf1. subst cerr.
    destruct Hkept as (Hk1 & _ & _ & Hl1 & _).
    destruct (DeQueueDDLJob m1) as [m2 r] eqn:H2.
    pose proof (DeQueueDDLJob_fault _ _ _ H2) as Hf2.
    assert (exists r', r = inl r') as [r' ->].
    { unfold DeQueueDDLJob in H2. rewrite Hf1, Hdq in H2.
      destruct (jobList m1); injection H2 as _ <-; eauto. }
    apply DeQueueDDLJob_legacy in H2 as (Hl2 & _ & _ & _ & _); [|congruence].
    destruct (EnQueueDDLJob (SetJobListKey DefaultJobListKey m2) j2) as [m3 r3] eqn:H3.
    pose proof (EnQueueDDLJob_fault _ _ _ _ H3) as Hf3. simpl in Hf3.
    assert (r3 = None) as ->.
    { unfold EnQueueDDLJob in H3. simpl in H3. rewrite Hf2, Hf1, Henq in H3.
      injection H3 as _ <-. reflexivity. }
    apply EnQueueDDLJob_default in H3 as (_ & Hl3 & _ & _).
    apply IH; [reflexivity | | |]; simpl.
    + unfold drainOpsAccepted. rewrite Hf3, Hf2, Hf1. auto.
    + rewrite Hl3, Hl2, Hl1, Hl. exact Hrest.
    + rewrite Hl3, Hl2, Hl1, Hl. simpl. lia.
Qed.

(** Every job added to the archive can be looked up under its ID; a later
    job with the same ID would have taken its place. *)
Lemma archiveAll_lookup (startTS : Z) (h : gmap Z Job) (l : list Job) (job : Job) :
  job ∈ l ->
  exists job0,
    job0 ∈ l /\ ID job0 = ID job
    /\ archiveAll startTS h l !! ID job = Some (legacyFinalized startTS job0).
Proof.
  unfold archiveAll. induction l as [|x l IH] using rev_ind; intros Hin.
  - apply elem_of_nil in Hin. contradiction.
  - rewrite foldl_snoc. destruct (decide (ID x = ID job)) as [Heq|Hne].
    + exists x. split; [apply elem_of_app; right; apply list_elem_of_singleton; reflexivity|].
      split; [exact Heq|]. rewrite <- Heq. apply lookup_insert_eq.
    + apply elem_of_app in Hin as [Hin|Hin].
      * destruct (IH Hin) as (job0 & Hin0 & Hid & Hlook).
        exists job0. split; [apply elem_of_app; left; exact Hin0|].
        split; [exact Hid|]. rewrite lookup_insert_ne by exact Hne. exact Hlook.
      * apply list_elem_of_singleton in Hin. subst x. contradiction.
Qed.

(** C7.  The drain of the legacy queue returns once it has fuel beyond the
    length of the queue, and it returns without error when the store
    accepts its operations, the collaborators of the conversion succeed and
    the legacy jobs are AddIndex jobs, as the source requires of them.
    When it returns without error the legacy queue is empty; every legacy
    job whose SchemaState is Public or None has been finalized into the
    history archive (Synced, respectively Cancelled, with the completion
    stamp) and none of them was put on the current queue; every legacy job
    in another SchemaState has been turned into a rollback job by
    [convert2RollbackJob], the conversion shared with cancellation, taken
    off the legacy queue, and appended, in order, to the current queue.
    [convert2RollbackJob] is taken to leave the queues and the archive
    alone. *)
Theorem cleanAddIndexQueueJobs_drains (d : ddl) (tx : Store) (startTS : Z) (w : World) :
  convertKeepsQueues d ->
  (exists r,
     cleanAddIndexQueueJobs d (S (length (addIndexJobs tx))) tx startTS w = Some r)
  /\ (conversionSucceeds d -> drainOpsAccepted tx ->
      Forall (fun job => Type_ job = ActionAddIndex) (addIndexJobs tx) ->
      exists w' m',
        cleanAddIndexQueueJobs d (S (length (addIndexJobs tx))) tx startTS w
        = Some (w', m', None))
  /\ (forall fuel w' m',
        cleanAddIndexQueueJobs d fuel tx startTS w = Some (w', m', None) ->
        addIndexJobs (txn m') = []
        /\ historyJobs (txn m')
           = archiveAll startTS (historyJobs tx)
               (filter (fun job => isPublicOrNone job = true) (addIndexJobs tx))
        /\ (forall job,
              job ∈ addIndexJobs tx -> isPublicOrNone job = true ->
              exists job0,
                job0 ∈ addIndexJobs tx /\ ID job0 = ID job
                /\ isPublicOrNone job0 = true
                /\ historyJobs (txn m') !! ID job
                   = Some (legacyFinalized startTS job0))
        /\ exists enqueued,
             defaultJobs (txn m') = defaultJobs tx ++ enqueued
             /\ Forall2 (legacyConverted d)
                  (filter (fun job => isPublicOrNone job <> true) (addIndexJobs tx))
                  enqueued).
Proof.
  intros Hconv. unfold cleanAddIndexQueueJobs. split; [|split].
  - apply cleanAddIndexQueueJobs_loop_returns; [exact Hconv | reflexivity | simpl; lia].
  - intros Hsucc Hacc Hty.
    apply cleanAddIndexQueueJobs_loop_succeeds; simpl; auto.
  - intros fuel w' m' Hrun.
    apply (cleanAddIndexQueueJobs_loop_result d fuel Hconv) in Hrun
      as (Hempty & Hhist & Henq); [|reflexivity].
    simpl in Hhist, Henq.
    split; [exact Hempty|]. split; [exact Hhist|]. split; [|exact Henq].
    intros job Hin Hpn.
    destruct (archiveAll_lookup startTS (historyJobs tx)
                (filter (fun job => isPublicOrNone job = true) (addIndexJobs tx)) job)
      as (job0 & Hin0 & Hid & Hlook).
    { apply list_elem_of_filter. auto. }
    apply list_elem_of_filter in Hin0 as [Hpn0 Hin0].
    exists job0. rewrite Hhist. auto.
Qed.

Lemma sampleConvert_keeps_queues (leaseTime : Z) (owner : nat -> bool) (h : Handler) :
  convertKeepsQueues (sampleDDL leaseTime owner h).
Proof. intros m job tbl idx. simpl. repeat split. Defined.

Lemma sampleDDL_conversion_succeeds (leaseTime : Z) (owner : nat -> bool) (h : Handler) :
  conversionSucceeds (sampleDDL leaseTime owner h).
Proof.
  split; [|split].
  - intros m job. eexists. reflexivity.
  - intros job. do 2 eexists. reflexivity.
  - intros m job tbl idx. split; reflexivity.
Defined.

Lemma cleanAddIndexQueueJobs_drains_witness :
  let d := sampleDDL 1 (fun _ => true) (handlerFinish 5) in
  let done := sampleJob 5 ActionAddIndex 3 JobStateRunning StatePublic in
  let fresh := sampleJob 6 ActionAddIndex 3 JobStateQueued StateNone in
  let half := sampleJob 7 ActionAddIndex 3 JobStateRunning StateWriteOnly in
  let job := sampleJob 8 ActionAddColumn 4 JobStateQueued StateNone in
  let tx := sampleStore [job] [done; half; fresh] noFault in
  exists w' m',
    cleanAddIndexQueueJobs d 4 tx 100 (sampleWorld tx) = Some (w', m', None)
    /\ addIndexJobs (txn m') = []
    /\ historyJobs (txn m') !! 5 = Some (legacyFinalized 100 done)
    /\ historyJobs (txn m') !! 6 = Some (legacyFinalized 100 fresh)
    /\ historyJobs (txn m') !! 7 = None
    /\ defaultJobs (txn m')
       = [job; setSchemaState StateDeleteOnly (setState JobStateRollingback half)].
Proof.
  intros d done fresh half job tx.
  destruct (cleanAddIndexQueueJobs_drains d tx 100 (sampleWorld tx)
              (sampleConvert_keeps_queues _ _ _)) as (_ & Hsucc & Hres).
  destruct Hsucc as (w' & m' & Hrun).
  { apply sampleDDL_conversion_succeeds. }
  { repeat split. }
  { repeat constructor. }
  destruct (Hres _ _ _ Hrun) as (Hempty & Hhist & _ & _).
  exists w', m'. split; [exact Hrun|]. split; [exact Hempty|].
  rewrite Hhist. split; [vm_compute; reflexivity|]. split; [vm_compute; reflexivity|].
  split; [vm_compute; reflexivity|].
  vm_compute in Hrun. injection Hrun as _ <-. reflexivity.
Defined.

(** * Further properties of the worker *)

(** ** The period of the ticker *)

Lemma wrap64_small (z : Z) : - 2 ^ 63 <= z < 2 ^ 63 -> wrap64 z = z.
Proof. intros H. unfold wrap64. rewrite Z.mod_small; lia. Qed.

(** X1.  For a lease from 0 up to (but not including) 2^62 nanoseconds the
    period of the worker's ticker is positive and at most one second: it is
    one second for a lease of 0 or of more than half a second, and twice
    the lease otherwise. *)
Theorem checkTime_bounds (d : ddl) :
  0 <= lease d < 2 ^ 62 ->
  0 < checkTime d <= Second
  /\ (lease d = 0 \/ Second < 2 * lease d -> checkTime d = Second)
  /\ (0 < 2 * lease d <= Second -> checkTime d = 2 * lease d).
Proof.
  intros Hl. unfold checkTime, chooseLeaseTime.
  rewrite (wrap64_small (2 * lease d)) by lia.
  rewrite (wrap64_small (1 * Second)) by (unfold Second; lia).
  replace (1 * Second) with Second by lia.
  destruct (Z.eqb_spec (2 * lease d) 0) as [H0|H0];
    destruct (Z.ltb_spec Second (2 * lease d)) as [H1|H1]; simpl;
    unfold Second in *; repeat split; intros; lia.
Qed.

Lemma checkTime_bounds_witness :
  checkTime (sampleDDL 300000000 (fun _ => true) (handlerKeep 0)) = 600000000.
Proof.
  destruct (checkTime_bounds (sampleDDL 300000000 (fun _ => true) (handlerKeep 0)))
    as (_ & _ & H); [simpl; lia|].
  rewrite H; [reflexivity | simpl; unfold Second; lia].
Defined.

(** ** The dependency resolver *)

(** X2.  [buildJobDependence] changes no field of the job but
    DependencyID, and when it returns an error, from the store or from the
    conflict test, it has not changed the job at all. *)
Theorem buildJobDependence_only_dependency
    (IsDependentOn : Job -> Job -> bool + error) (t : Meta) (curJob curJob' : Job)
    (err : option error) :
  buildJobDependence IsDependentOn t curJob = (curJob', err) ->
  curJob' = setDependencyID (DependencyID curJob') curJob
  /\ (err <> None -> curJob' = curJob).
Proof.
  unfold buildJobDependence.
  assert (curJob = setDependencyID (DependencyID curJob) curJob) as Hself
    by (destruct curJob; reflexivity).
  destruct (GetAllDDLJobs t) as [jobs|e];
    [|intros [= <- <-]; split; [exact Hself | reflexivity]].
  induction jobs as [|job rest IH]; simpl.
  - intros [= <- <-]. split; [exact Hself | reflexivity].
  - destruct (ID curJob <? ID job); [exact IH|].
    destruct (IsDependentOn curJob job) as [[|]|e].
    + intros [= <- <-]. split; [reflexivity | intros H; contradiction].
    + exact IH.
    + intros [= <- <-]. split; [exact Hself | reflexivity].
Qed.

Lemma buildJobDependence_only_dependency_witness :
  let jobA := sampleJob 5 ActionAddColumn 3 JobStateRunning StateWriteOnly in
  let curJob := sampleJob 7 ActionAddIndex 3 JobStateQueued StateNone in
  let t := NewMeta (sampleStore [jobA] [] (faultOn OpGetAllDDLJobs (PlainErr "down"))) 100 in
  buildJobDependence sameTable t curJob = (curJob, Some (PlainErr "down")).
Proof.
  intros jobA curJob t.
  destruct (buildJobDependence sameTable t curJob) as [cur' err] eqn:Hrun.
  destruct (buildJobDependence_only_dependency sameTable t curJob cur' err Hrun)
    as [_ Herr].
  assert (err = Some (PlainErr "down")) as -> by (vm_compute in Hrun; congruence).
  rewrite Herr; [reflexivity | discriminate].
Defined.

(** X3.  When [buildJobDependence] returns without error, either no
    queued job whose ID is at most the new job's conflicts with it, and
    the job is returned as it was, or the recorded DependencyID is the ID
    of the first job in queue order that has such an ID and conflicts; the
    recorded ID never exceeds the new job's own ID. *)
Theorem buildJobDependence_first_conflict
    (IsDependentOn : Job -> Job -> bool + error) (t : Meta) (curJob curJob' : Job) :
  buildJobDependence IsDependentOn t curJob = (curJob', None) ->
  exists jobs,
    GetAllDDLJobs t = inl jobs
    /\ ((curJob' = curJob
         /\ forall job, job ∈ jobs -> ID job <= ID curJob ->
                        IsDependentOn curJob job = inl false)
        \/ (exists pre job post,
              jobs = pre ++ job :: post
              /\ ID job <= ID curJob
              /\ IsDependentOn curJob job = inl true
              /\ curJob' = setDependencyID (ID job) curJob
              /\ DependencyID curJob' <= ID curJob
              /\ forall job', job' ∈ pre -> ID job' <= ID curJob ->
                              IsDependentOn curJob job' = inl false)).
Proof.
  unfold buildJobDependence. destruct (GetAllDDLJobs t) as [jobs|e]; [|discriminate].
  intros Hrun. exists jobs. split; [reflexivity|].
  destruct (buildJobDependence_range_first _ _ _ _ Hrun)
    as [H | (pre & job & post & H1 & H2 & H3 & H4 & H5)]; [left; exact H|].
  right. exists pre, job, post. repeat split; auto. rewrite H4. simpl. exact H2.
Qed.

Lemma buildJobDependence_first_conflict_witness :
  let jobA := sampleJob 5 ActionAddColumn 4 JobStateRunning StateWriteOnly in
  let jobB := sampleJob 6 ActionDropColumn 3 JobStateQueued StateNone in
  let curJob := sampleJob 7 ActionAddIndex 3 JobStateQueued StateNone in
  let t := NewMeta (sampleStore [jobA; jobB] [] noFault) 100 in
  exists curJob',
    buildJobDependence sameTable t curJob = (curJob', None)
    /\ DependencyID curJob' <= 7.
Proof.
  intros jobA jobB curJob t.
  destruct (buildJobDependence sameTable t curJob) as [cur' err] eqn:Hrun.
  assert (err = None) as -> by (vm_compute in Hrun; congruence).
  exists cur'. split; [reflexivity|].
  destruct (buildJobDependence_first_conflict sameTable t curJob cur' Hrun)
    as (jobs & _ & [[-> _] | (pre & job & post & _ & _ & _ & _ & Hle & _)]).
  - simpl. lia.
  - exact Hle.
Defined.

(** ** The runner *)

(** X5.  An error returned by [runDDLJob] is always recorded on the job
    it returns, and it comes from a handler that was run: a job that is
    already Done, RollbackDone or Cancelled is returned as it is, with
    version 0, no error, and the transaction and the world untouched. *)
Theorem runDDLJob_error_recorded
    (d : ddl) (t t' : Meta) (job job' : Job) (w w' : World) (ver : Z)
    (err : option error) :
  runDDLJob d t job w = (w', t', job', ver, err) ->
  (forall e, err = Some e ->
             Error job' = Some (toTError e) /\ IsFinished job = false)
  /\ (IsFinished job = true ->
      w' = w /\ t' = t /\ job' = job /\ ver = 0 /\ err = None).
Proof.
  unfold runDDLJob, runDDLJob_dispatch.
  destruct (IsFinished job).
  - intros [= <- <- <- <- <-]. split; [discriminate | auto].
  - assert (forall w0 j0,
              (let '(t1, j1, v1, e1) := runHandler d t j0 in
               (w0, t1,
                match e1 with
                | Some e => incErrorCount (setError (Some (toTError e)) j1)
                | None => j1
                end, v1, e1)) = (w', t', job', ver, err) ->
              forall e, err = Some e -> Error job' = Some (toTError e)) as Hdisp.
    { intros w0 j0. destruct (runHandler d t j0) as [[[t1 j1] v1] e1].
      intros [= _ _ <- _ <-] e ->. reflexivity. }
    destruct (IsCancelling job).
    + destruct (isBackfilling job).
      * intros Hrun. split; [|discriminate].
        intros e He. split; [exact (Hdisp _ _ Hrun e He) | reflexivity].
      * intros [= _ _ _ _ <-]. split; discriminate.
    + intros Hrun. split; [|discriminate].
      intros e He. split; [exact (Hdisp _ _ Hrun e He) | reflexivity].
Qed.

Lemma runDDLJob_error_recorded_witness :
  let d := sampleDDL 1 (fun _ => true) (handlerKeep 5) in
  let job := sampleJob 8 (ActionOther 99) 3 JobStateQueued StateNone in
  let t := NewMeta (sampleStore [job] [] noFault) 100 in
  let w := sampleWorld (sampleStore [job] [] noFault) in
  Error (snd (fst (fst (runDDLJob d t job w)))) = Some errInvalidDDLJob.
Proof.
  intros d job t w.
  destruct (runDDLJob d t job w) as [[[[w' t'] job'] ver] err] eqn:Hrun.
  destruct (runDDLJob_error_recorded d t t' job job' w w' ver err Hrun) as [Hrec _].
  assert (err = Some (TErr errInvalidDDLJob)) as Herr
    by (vm_compute in Hrun; congruence).
  destruct (Hrec _ Herr) as [He _]. exact He.
Defined.

(** ** Waiting for the schema version *)

(** X7.  [waitSchemaSynced] does nothing for a job that is not Running,
    RollingBack, Done or RollbackDone.  Otherwise it reads the global
    version; if the read fails it stops there, and the only version it
    ever publishes is the one it has just read, and then only when that
    version and the wait time are non-zero. *)
Theorem waitSchemaSynced_publishes_read_version
    (d : ddl) (job : Job) (waitTime : Z) (w : World) :
  let read := MustGetGlobalVersion (schemaSyncer d) (now w) (ctxTimeout waitTime) in
  exists evs,
    trace (waitSchemaSynced d job waitTime w) = trace w ++ evs
    /\ (needsSchemaWait job = false -> evs = [])
    /\ (needsSchemaWait job = true -> snd read <> None -> evs = [EvMustGetGlobalVersion])
    /\ (forall v, EvOwnerUpdateGlobalVersion v ∈ evs ->
                  v = fst read /\ snd read = None /\ needsSchemaWait job = true
                  /\ v <> 0 /\ waitTime <> 0).
Proof.
  intros read. unfold waitSchemaSynced.
  assert (negb (IsRunning job) && negb (IsRollingback job)
          && negb (IsDone job) && negb (IsRollbackDone job)
          = negb (needsSchemaWait job)) as ->.
  { unfold needsSchemaWait.
    destruct (IsRunning job), (IsRollingback job), (IsDone job), (IsRollbackDone job);
      reflexivity. }
  destruct (needsSchemaWait job); simpl.
  - fold read. destruct read as [v [e|]]; simpl.
    + exists [EvMustGetGlobalVersion]. split; [reflexivity|].
      split; [discriminate|]. split; [reflexivity|].
      intros v' Hin. apply list_elem_of_singleton in Hin. discriminate.
    + destruct (decide (waitTime = 0)) as [Hw|Hw];
        [|destruct (decide (v = 0)) as [Hv|Hv]].
      * rewrite waitSchemaChanged_skipped by auto.
        exists [EvMustGetGlobalVersion]. split; [reflexivity|].
        split; [discriminate|]. split; [intros _ H; contradiction|].
        intros v' Hin. apply list_elem_of_singleton in Hin. discriminate.
      * rewrite waitSchemaChanged_skipped by auto.
        exists [EvMustGetGlobalVersion]. split; [reflexivity|].
        split; [discriminate|]. split; [intros _ H; contradiction|].
        intros v' Hin. apply list_elem_of_singleton in Hin. discriminate.
      * destruct (waitSchemaChanged_called d (ctxTimeout waitTime) waitTime v
                    (emit EvMustGetGlobalVersion w) Hw Hv) as (rest & Htr & Hrest).
        rewrite Htr, trace_emit, <- app_assoc. simpl.
        eexists. split; [reflexivity|]. split; [discriminate|].
        split; [intros _ H; contradiction|].
        intros v' Hin.
        assert (v' = v) as ->; [|auto].
        apply elem_of_cons in Hin as [Hin|Hin]; [discriminate|].
        apply elem_of_cons in Hin as [Hin|Hin]; [congruence|].
        exfalso. specialize (Hrest isSyncWait eq_refl eq_refl).
        clear Htr. induction rest as [|e rest IH]; [apply elem_of_nil in Hin; exact Hin|].
        simpl in Hrest. apply elem_of_cons in Hin as [<-|Hin].
        -- simpl in Hrest. discriminate.
        -- apply IH; [|exact Hin]. destruct (isSyncWait e); [discriminate | exact Hrest].
  - exists []. rewrite app_nil_r. split; [reflexivity|]. split; [reflexivity|].
    split; [discriminate|]. intros v Hin. apply elem_of_nil in Hin. contradiction.
Qed.

Lemma waitSchemaSynced_publishes_read_version_witness :
  let d := sampleDDL 1 (fun _ => true) (handlerKeep 5) in
  let job := sampleJob 8 ActionAddColumn 3 JobStateQueued StateNone in
  let w := sampleWorld (sampleStore [job] [] noFault) in
  trace (waitSchemaSynced d job 2 w) = [].
Proof.
  intros d job w.
  destruct (waitSchemaSynced_publishes_read_version d job 2 w)
    as (evs & Htr & Hnone & _ & _).
  rewrite Htr, (Hnone eq_refl). reflexivity.
Defined.

Lemma setStore_same (w : World) : setStore (store w) w = w.
Proof. destruct w. reflexivity. Qed.

(** X9.  A pass that has nothing to do changes nothing.  A closed worker
    returns at once, without a single call.  A worker that is not the owner
    returns after asking the owner manager, and so does an owner that,
    with the migration flag clear, finds the current queue empty: the
    store, the range deletions and the closed flag are as before, no job
    was dispatched, and the result is the answer of the store to the
    commit of the empty transaction. *)
Theorem handleDDLJobQueue_idle_pass
    (d : ddl) (fuel : nat) (shouldCleanJobs : bool) (w : World) :
  (isClosed w = true ->
   handleDDLJobQueue d (S fuel) shouldCleanJobs w = Some (None, w))
  /\ (isClosed w = false ->
      ownerManager d (now w) = false
      \/ (ownerManager d (now w) = true /\ shouldCleanJobs = false
          /\ fault (store w) OpGetDDLJob = None /\ defaultJobs (store w) = []) ->
      handleDDLJobQueue d (S fuel) shouldCleanJobs w
      = Some (fault (store w) OpCommit, emit (EvIsOwner (ownerManager d (now w))) w)).
Proof.
  unfold handleDDLJobQueue. simpl. unfold handleDDLJobQueue_iter. split.
  - intros ->. reflexivity.
  - intros -> Hidle. unfold handleDDLJobQueue_txn, isOwner.
    destruct Hidle as [-> | (-> & -> & Hget & Hempty)]; simpl.
    + unfold endTxn. destruct (fault (store w) OpCommit); [reflexivity|].
      simpl. rewrite <- (setStore_same (emit (EvIsOwner false) w)) at 2. reflexivity.
    + unfold getFirstDDLJob, GetDDLJob, jobList. simpl. rewrite Hget, Hempty. simpl.
      unfold endTxn. destruct (fault (store w) OpCommit); [reflexivity|].
      simpl. rewrite <- (setStore_same (emit (EvIsOwner true) w)) at 2. reflexivity.
Qed.

Lemma handleDDLJobQueue_idle_pass_witness :
  let d := sampleDDL 1 (fun _ => false) (handlerKeep 5) in
  let job := sampleJob 8 ActionAddColumn 3 JobStateQueued StateNone in
  let w := sampleWorld (sampleStore [job] [] noFault) in
  handleDDLJobQueue d 1 false w = Some (None, emit (EvIsOwner false) w).
Proof.
  intros d job w.
  destruct (handleDDLJobQueue_idle_pass d 0 false w) as [_ H].
  apply H; [reflexivity | left; reflexivity].
Defined.

(** ** A drain-pass iteration and the store *)

(** The committed store across an iteration. *)
Lemma handleDDLJobQueue_iter_store
    (d : ddl) (fuel : nat) (shouldCleanJobs once once' : bool) (w w' : World)
    (out : IterOutcome) :
  handleDDLJobQueue_iter d fuel shouldCleanJobs once w = Some (out, once', w') ->
  closed w' = closed w
  /\ (forall e, out = IterReturn (Some e) -> store w' = store w)
  /\ (store w' = store w
      \/ exists w1 tx job ver rerr,
           handleDDLJobQueue_txn d fuel shouldCleanJobs once (wrap64 (2 * lease d))
             (store w) (beginTS d (now w)) w
           = Some (w1, tx, once', job, ver, rerr, None)
           /\ fault tx OpCommit = None /\ store w' = tx).
Proof.
  unfold handleDDLJobQueue_iter. destruct (isClosed w) eqn:Hclosed.
  - intros [= <- <- <-]. split; [reflexivity|]. split; [discriminate | left; reflexivity].
  - destruct (handleDDLJobQueue_txn _ _ _ _ _ _ _ _)
      as [[[[[[[w1 tx] o1] job] ver] rerr] err]|] eqn:Htxn; [|discriminate].
    apply handleDDLJobQueue_txn_trace in Htxn as Hframe.
    destruct Hframe as (_ & Hs1 & Hc1 & _ & _).
    destruct (endTxn tx err w1) as [w2 err2] eqn:Hend.
    assert (closed w2 = closed w
            /\ (err2 <> None -> store w2 = store w)
            /\ (err2 = None -> err = None /\ fault tx OpCommit = None /\ store w2 = tx))
      as (Hc2 & Hfail & Hok).
    { unfold endTxn in Hend. destruct err as [e|].
      - injection Hend as <- <-. repeat split; try assumption; try discriminate.
        intros _. exact Hs1.
      - destruct (fault tx OpCommit) as [e|] eqn:Hcommit; injection Hend as <- <-.
        + repeat split; try assumption; try discriminate. intros _. exact Hs1.
        + repeat split; try assumption. intros H. contradiction. }
    set (w3 := if bool_decide (rerr <> None) then emit EvSleep w2 else w2).
    assert (store w3 = store w2 /\ closed w3 = closed w2) as [Hs3 Hc3]
      by (unfold w3; destruct (bool_decide (rerr <> None)); split; reflexivity).
    destruct err2 as [e2|].
    { intros [= <- <- <-]. split; [congruence|].
      split; [intros e _|left]; rewrite Hs3; apply Hfail; discriminate. }
    destruct (Hok eq_refl) as (-> & Hcommit & Hs2).
    destruct job as [j|].
    2:{ intros [= <- <- <-]. split; [congruence|]. split; [discriminate|].
        right. exists w1, tx, None, ver, rerr. rewrite Hs3. auto. }
    set (w4 := emit (EvOnJobUpdated j) w3).
    set (w5 := if IsRunning j || IsRollingback j || IsDone j || IsRollbackDone j
               then waitSchemaChanged d ctxNil (wrap64 (2 * lease d)) ver w4 else w4).
    assert (store w5 = store w3 /\ closed w5 = closed w3) as [Hs5 Hc5].
    { unfold w5. destruct (IsRunning j || IsRollingback j || IsDone j || IsRollbackDone j);
        [|split; reflexivity].
      destruct (waitSchemaChanged_frame d ctxNil (wrap64 (2 * lease d)) ver w4)
        as (H1 & H2 & _). split; assumption. }
    intros Hres.
    assert (store w' = store w5 /\ closed w' = closed w5 /\ out = IterContinue
            /\ once' = o1) as (Hs6 & Hc6 & -> & ->).
    { destruct (IsSynced j); injection Hres as <- <- <-; repeat split. }
    split; [congruence|]. split; [discriminate|].
    right. exists w1, tx, (Some j), ver, rerr. repeat split; try assumption. congruence.
Qed.

(** X10.  An iteration of the drain pass touches the committed store only
    through the commit of its transaction.  An iteration that returns an
    error, from a handler's store operation, from finalization, from the
    update or from the commit, leaves the committed store as it was; and
    when the store has changed, the iteration did not end in an error and
    the new store is exactly what a closure that returned no error handed
    to a commit the store accepted.  The closed flag is never changed. *)
Theorem handleDDLJobQueue_iter_atomic
    (d : ddl) (fuel : nat) (shouldCleanJobs once once' : bool) (w w' : World)
    (out : IterOutcome) :
  handleDDLJobQueue_iter d fuel shouldCleanJobs once w = Some (out, once', w') ->
  closed w' = closed w
  /\ (forall e, out = IterReturn (Some e) -> store w' = store w)
  /\ (store w' <> store w ->
      (out = IterContinue \/ out = IterReturn None)
      /\ exists w1 tx job ver rerr,
           handleDDLJobQueue_txn d fuel shouldCleanJobs once (wrap64 (2 * lease d))
             (store w) (beginTS d (now w)) w
           = Some (w1, tx, once', job, ver, rerr, None)
           /\ fault tx OpCommit = None /\ store w' = tx).
Proof.
  intros Hit.
  destruct (handleDDLJobQueue_iter_store _ _ _ _ _ _ _ _ Hit) as (Hc & Herr & Hstore).
  split; [exact Hc|]. split; [exact Herr|].
  intros Hchanged. destruct Hstore as [Hsame | Hcommitted]; [contradiction|].
  split; [|exact Hcommitted].
  destruct out as [[e|]|]; [|right; reflexivity | left; reflexivity].
  exfalso. apply Hchanged. exact (Herr e eq_refl).
Qed.

Lemma handleDDLJobQueue_iter_atomic_witness :
  let d := sampleDDL 1 (fun _ => true) (handlerKeep 5) in
  let job := sampleJob 8 ActionAddColumn 3 JobStateRunning StateWriteOnly in
  let w := sampleWorld
             (sampleStore [job] [] (faultOn OpUpdateDDLJob (PlainErr "conflict"))) in
  exists w',
    handleDDLJobQueue_iter d 1 false false w
    = Some (IterReturn (Some (PlainErr "conflict")), false, w')
    /\ store w' = store w.
Proof.
  intros d job w.
  destruct (handleDDLJobQueue_iter d 1 false false w) as [[[out o] w']|] eqn:Hit;
    [|vm_compute in Hit; discriminate].
  assert (out = IterReturn (Some (PlainErr "conflict")) /\ o = false) as [-> ->]
    by (vm_compute in Hit; split; congruence).
  destruct (handleDDLJobQueue_iter_atomic d 1 false false false w w' _ Hit)
    as (_ & Herr & _).
  exists w'. split; [reflexivity|]. exact (Herr _ eq_refl).
Defined.

(** Finalization of the head job of the current queue on a store that
    accepts the dequeue and the append. *)
Lemma finishDDLJob_head
    (d : ddl) (tx : Store) (ts : Z) (job head : Job) (rest : list Job) (w : World) :
  defaultJobs tx = head :: rest ->
  fault tx OpDeQueueDDLJob = None ->
  fault tx OpAddHistoryDDLJob = None ->
  (needsDeleteRange job = true ->
   Version job <= currentVersion d /\ delRangeManager d job = None) ->
  exists t',
    finishDDLJob d (NewMeta tx ts) job w
    = (if needsDeleteRange job then keepDelRange job w else w, t',
       setBinlogInfo (setFinishedTS ts (BinlogInfo job)) job, None)
    /\ defaultJobs (txn t') = rest
    /\ addIndexJobs (txn t') = addIndexJobs tx
    /\ historyJobs (txn t')
       = <[ID job := setBinlogInfo (setFinishedTS ts (BinlogInfo job)) job]>
           (historyJobs tx)
    /\ fault (txn t') = fault tx.
Proof.
  intros Hq Hdq Hadd Hdel. rewrite finishDDLJob_unfold.
  assert ((if needsDeleteRange job then deleteRange d job w else (w, None))
          = (if needsDeleteRange job then keepDelRange job w else w, None)) as ->.
  { destruct (needsDeleteRange job); [|reflexivity].
    destruct (Hdel eq_refl) as [Hv Hm]. unfold deleteRange, addDelRangeJob.
    rewrite Hm. destruct (Z.leb_spec (Version job) (currentVersion d));
      [reflexivity|lia]. }
  unfold DeQueueDDLJob, jobList. simpl. rewrite Hdq, Hq.
  unfold AddHistoryDDLJob, setJobList. simpl. rewrite Hadd.
  eexists. split; [reflexivity|]. simpl. auto.
Qed.



(** X12.  A job whose type is none of those the runner knows is not
    retried.  When the owner dispatches it from the head of the current
    queue (neither finished nor cancelling), on a store that accepts its
    operations, the job is cancelled with the invalid-job error and one
    more in ErrorCount, taken off the queue and archived in the same
    iteration; no range deletion is scheduled, the syncer is not called,
    and the worker sleeps before the next iteration. *)
Theorem handleDDLJobQueue_iter_cancels_unknown_type
    (d : ddl) (fuel : nat) (w : World) (job : Job) (rest : list Job) (code : Z) :
  let cancelled :=
    incErrorCount (setError (Some errInvalidDDLJob) (setState JobStateCancelled job)) in
  let archived :=
    setBinlogInfo (setFinishedTS (beginTS d (now w)) (BinlogInfo job)) cancelled in
  isClosed w = false ->
  ownerManager d (now w) = true ->
  defaultJobs (store w) = job :: rest ->
  Type_ job = ActionOther code ->
  IsFinished job = false -> IsCancelling job = false ->
  fault (store w) OpGetDDLJob = None ->
  fault (store w) OpDeQueueDDLJob = None ->
  fault (store w) OpAddHistoryDDLJob = None ->
  fault (store w) OpCommit = None ->
  exists w',
    handleDDLJobQueue_iter d fuel false false w = Some (IterContinue, false, w')
    /\ defaultJobs (store w') = rest
    /\ historyJobs (store w') = <[ID job := archived]> (historyJobs (store w))
    /\ State archived = JobStateCancelled
    /\ Error archived = Some errInvalidDDLJob
    /\ ErrorCount archived = wrap64 (ErrorCount job + 1)
    /\ delRangeJobs w' = delRangeJobs w
    /\ trace w'
       = trace w ++ [EvIsOwner true; EvOnJobRunBefore job; EvSleep;
                     EvOnJobUpdated archived].
Proof.
  intros cancelled archived Hclosed Howner Hq Hty Hfin Hcan Hget Hdq Hadd Hcommit.
  unfold handleDDLJobQueue_iter. rewrite Hclosed.
  unfold handleDDLJobQueue_txn, isOwner. rewrite Howner. simpl.
  unfold getFirstDDLJob, GetDDLJob, jobList. simpl. rewrite Hget, Hq. simpl.
  assert (IsDone job || IsRollbackDone job = false) as ->.
  { unfold IsFinished in Hfin. apply orb_false_iff in Hfin as [H _]. exact H. }
  set (w0 := emit (EvOnJobRunBefore job) (emit (EvIsOwner true) w)).
  assert (runDDLJob d (NewMeta (store w) (beginTS d (now w))) job w0
          = (w0, NewMeta (store w) (beginTS d (now w)), cancelled, 0,
             Some (TErr errInvalidDDLJob))) as ->.
  { unfold runDDLJob, runDDLJob_dispatch. rewrite Hfin, Hcan.
    unfold runHandler.
    destruct (IsRollingback job); simpl; rewrite Hty; reflexivity. }
  assert (IsCancelled cancelled = true) as -> by reflexivity.
  assert (needsDeleteRange cancelled = false) as Hn
    by (unfold needsDeleteRange; simpl; rewrite Hty; reflexivity).
  destruct (finishDDLJob_head d (store w) (beginTS d (now w)) cancelled job rest w0
              Hq Hdq Hadd) as (t' & Hfin' & Hq' & _ & Hh' & Hf').
  { rewrite Hn. discriminate. }
  rewrite Hfin', Hn.
  unfold endTxn. rewrite Hf', Hcommit. simpl.
  eexists. split; [reflexivity|]. simpl.
  split; [exact Hq'|]. split; [exact Hh'|].
  repeat split. rewrite <- !app_assoc. reflexivity.
Qed.

Lemma handleDDLJobQueue_iter_cancels_unknown_type_witness :
  let d := sampleDDL 1 (fun _ => true) (handlerKeep 5) in
  let job := sampleJob 8 (ActionOther 99) 3 JobStateQueued StateNone in
  let w := sampleWorld (sampleStore [job] [] noFault) in
  exists w',
    handleDDLJobQueue_iter d 1 false false w = Some (IterContinue, false, w')
    /\ defaultJobs (store w') = []
    /\ (State <$> historyJobs (store w') !! 8) = Some JobStateCancelled.
Proof.
  intros d job w.
  destruct (handleDDLJobQueue_iter_cancels_unknown_type d 1 w job [] 99)
    as (w' & Hit & Hq & Hh & _); try reflexivity.
  exists w'. split; [exact Hit|]. split; [exact Hq|].
  rewrite Hh, lookup_insert_eq. reflexivity.
Defined.

(** ** The legacy queue during normal processing *)

Lemma setJobList_default (l : list Job) (m : Meta) :
  jobListKey m = DefaultJobListKey ->
  addIndexJobs (txn (setJobList l m)) = addIndexJobs (txn m)
  /\ jobListKey (setJobList l m) = DefaultJobListKey.
Proof. intros Hk. unfold setJobList. rewrite Hk. simpl. auto. Qed.

Lemma finishDDLJob_default (d : ddl) (t t' : Meta) (job job' : Job) (w w' : World)
    (err : option error) :
  jobListKey t = DefaultJobListKey ->
  finishDDLJob d t job w = (w', t', job', err) ->
  addIndexJobs (txn t') = addIndexJobs (txn t)
  /\ jobListKey t' = DefaultJobListKey.
Proof.
  intros Hk. rewrite finishDDLJob_unfold.
  destruct (if needsDeleteRange job then deleteRange d job w else (w, None))
    as [w1 [e|]]; [intros [= _ <- _ _]; auto|].
  unfold DeQueueDDLJob.
  destruct (fault (txn t) OpDeQueueDDLJob); [intros [= _ <- _ _]; auto|].
  assert (forall t1, addIndexJobs (txn t1) = addIndexJobs (txn t) ->
                     jobListKey t1 = DefaultJobListKey ->
                     (let '(t2, err0) := AddHistoryDDLJob t1 (stampFinished t1 job) in
                      (w1, t2, stampFinished t1 job, err0)) = (w', t', job', err) ->
                     addIndexJobs (txn t') = addIndexJobs (txn t)
                     /\ jobListKey t' = DefaultJobListKey) as Hadd.
  { intros t1 Hl1 Hk1. unfold AddHistoryDDLJob.
    destruct (fault (txn t1) OpAddHistoryDDLJob); intros [= _ <- _ _]; auto. }
  destruct (jobList t) as [|j rest].
  - apply Hadd; auto.
  - destruct (setJobList_default rest t Hk) as [Hl1 Hk1]. apply Hadd; auto.
Qed.

Lemma runDDLJob_legacy (d : ddl) (t t' : Meta) (job job' : Job) (w w' : World)
    (ver : Z) (err : option error) :
  handlersKeepLegacy d ->
  runDDLJob d t job w = (w', t', job', ver, err) ->
  addIndexJobs (txn t') = addIndexJobs (txn t) /\ jobListKey t' = jobListKey t.
Proof.
  intros Hkeep. unfold runDDLJob, runDDLJob_dispatch.
  assert (forall w0 j0,
            (let '(t1, j1, v1, e1) := runHandler d t j0 in
             (w0, t1,
              match e1 with
              | Some e => incErrorCount (setError (Some (toTError e)) j1)
              | None => j1
              end, v1, e1)) = (w', t', job', ver, err) ->
            addIndexJobs (txn t') = addIndexJobs (txn t)
            /\ jobListKey t' = jobListKey t) as Hdisp.
  { intros w0 j0. pose proof (Hkeep t j0) as Hk.
    destruct (runHandler d t j0) as [[[t1 j1] v1] e1]. simpl in Hk.
    intros [= _ <- _ _ _]. exact Hk. }
  destruct (IsFinished job); [intros [= _ <- _ _ _]; auto|].
  destruct (IsCancelling job); [|apply Hdisp].
  destruct (isBackfilling job); [apply Hdisp | intros [= _ <- _ _ _]; auto].
Qed.

Lemma updateDDLJob_default (d : ddl) (t t' : Meta) (job : Job) (meetErr : bool)
    (err : option error) :
  jobListKey t = DefaultJobListKey ->
  updateDDLJob d t job meetErr = (t', err) ->
  addIndexJobs (txn t') = addIndexJobs (txn t)
  /\ jobListKey t' = DefaultJobListKey.
Proof.
  intros Hk. unfold updateDDLJob, UpdateDDLJob.
  destruct (fault (txn t) OpUpdateDDLJob); [intros [= <- _]; auto|].
  destruct (decide (0 < length (jobList t))%nat); intros [= <- _]; [|auto].
  apply setJobList_default. exact Hk.
Qed.

Lemma handleDDLJobQueue_txn_legacy
    (d : ddl) (fuel : nat) (once once' : bool) (waitTime : Z)
    (tx tx' : Store) (startTS : Z) (w w1 : World) (job : option Job) (ver : Z)
    (rerr err : option error) :
  handlersKeepLegacy d ->
  handleDDLJobQueue_txn d fuel false once waitTime tx startTS w
  = Some (w1, tx', once', job, ver, rerr, err) ->
  addIndexJobs tx' = addIndexJobs tx.
Proof.
  intros Hkeep. unfold handleDDLJobQueue_txn, isOwner.
  destruct (ownerManager d (now w)); simpl; [|intros [= _ <- _ _ _ _ _]; reflexivity].
  destruct (getFirstDDLJob (NewMeta tx startTS)) as [[j|]|e];
    [| intros [= _ <- _ _ _ _ _]; reflexivity | intros [= _ <- _ _ _ _ _]; reflexivity].
  destruct once; [intros [= _ <- _ _ _ _ _]; reflexivity|].
  destruct (IsDone j || IsRollbackDone j).
  - destruct (finishDDLJob d _ _ _) as [[[w3 t3] j3] e3] eqn:Hfin.
    apply finishDDLJob_default in Hfin as [Hl _]; [|reflexivity].
    intros [= _ <- _ _ _ _ _]. exact Hl.
  - destruct (runDDLJob d _ j _) as [[[[w3 t3] j3] v3] e3] eqn:Hrun.
    apply (runDDLJob_legacy _ _ _ _ _ _ _ _ _ Hkeep) in Hrun as [Hl3 Hk3].
    simpl in Hl3, Hk3.
    destruct (IsCancelled j3).
    + destruct (finishDDLJob d t3 j3 w3) as [[[w4 t4] j4] e4] eqn:Hfin.
      apply finishDDLJob_default in Hfin as [Hl _]; [|exact Hk3].
      intros [= _ <- _ _ _ _ _]. congruence.
    + destruct (updateDDLJob d t3 j3 _) as [t4 e4] eqn:Hupd.
      apply updateDDLJob_default in Hupd as [Hl4 Hk4]; [|exact Hk3].
      unfold handleUpdateJobError.
      destruct e4 as [e4|]; [|intros [= _ <- _ _ _ _ _]; congruence].
      destruct (isEntryTooLarge e4); [|intros [= _ <- _ _ _ _ _]; congruence].
      destruct (finishDDLJob d t4 _ w3) as [[[w5 t5] j5] e5] eqn:Hfin.
      apply finishDDLJob_default in Hfin as [Hl _]; [|exact Hk4].
      intros [= _ <- _ _ _ _ _]. congruence.
Qed.

(** X13.  With the migration flag clear a drain pass never touches the
    legacy queue: whatever jobs of the current queue it runs, updates or
    finalizes, the legacy queue of the committed store is, at the return of
    the pass, what it was at its start.  The handlers are taken to leave
    the legacy queue and the queue selection of their handle alone. *)
Theorem handleDDLJobQueue_keeps_legacy_queue (d : ddl) (fuel : nat) :
  handlersKeepLegacy d ->
  forall (once : bool) (w w' : World) (err : option error),
    handleDDLJobQueue_loop d fuel false once w = Some (err, w') ->
    addIndexJobs (store w') = addIndexJobs (store w).
Proof.
  intros Hkeep. induction fuel as [|fuel IH]; intros once w w' err; simpl;
    [discriminate|].
  destruct (handleDDLJobQueue_iter d (S fuel) false once w) as [[[out o1] w1]|] eqn:Hit;
    [|discriminate].
  assert (addIndexJobs (store w1) = addIndexJobs (store w)) as Hstep.
  { destruct (handleDDLJobQueue_iter_store _ _ _ _ _ _ _ _ Hit)
      as (_ & _ & [-> | (w2 & tx & job & ver & rerr & Htxn & _ & ->)]); [reflexivity|].
    exact (handleDDLJobQueue_txn_legacy _ _ _ _ _ _ _ _ _ _ _ _ _ _ Hkeep Htxn). }
  destruct out as [e|].
  - intros [= <- <-]. exact Hstep.
  - intros Hrec. rewrite (IH _ _ _ _ Hrec). exact Hstep.
Qed.

Lemma sampleDDL_handlers_keep_legacy (leaseTime : Z) (owner : nat -> bool) (ver : Z) :
  handlersKeepLegacy (sampleDDL leaseTime owner (handlerFinish ver)).
Proof.
  intros t job. unfold runHandler, sampleDDL, handlerFinish. simpl.
  destruct (Type_ job); simpl;
    destruct (IsCancelling job || IsRollingback job); simpl; auto.
Defined.

Lemma handleDDLJobQueue_keeps_legacy_queue_witness :
  let d := sampleDDL 1 (fun _ => true) (handlerFinish 5) in
  let legacy := sampleJob 7 ActionAddIndex 3 JobStateRunning StateWriteOnly in
  let job := sampleJob 8 ActionAddColumn 4 JobStateQueued StateNone in
  let w := sampleWorld (sampleStore [job] [legacy] noFault) in
  exists w',
    handleDDLJobQueue_loop d 4 false true w = Some (None, w')
    /\ addIndexJobs (store w') = [legacy].
Proof.
  intros d legacy job w.
  destruct (handleDDLJobQueue_loop d 4 false true w) as [[err w']|] eqn:Hpass;
    [|vm_compute in Hpass; discriminate].
  assert (err = None) as -> by (vm_compute in Hpass; congruence).
  exists w'. split; [reflexivity|].
  exact (handleDDLJobQueue_keeps_legacy_queue d 4
           (sampleDDL_handlers_keep_legacy _ _ _) true w w' None Hpass).
Defined.

(** ** Submitting a job *)

(** X14.  Whatever Version the caller put on the job, and whether or not
    the submission succeeds, [addDDLJob] leaves the job with the current
    version of the process, so that [deleteRange] never refuses it for its
    version; the query text is the session's (empty when the session has
    none), and the type, the targets, the states and the arguments of the
    job are as the caller set them. *)
Theorem addDDLJob_stamps_version
    (d : ddl) (GenGlobalID : GlobalIDGen) (query : option string) (job job' : Job)
    (w w' : World) (err : option error) :
  addDDLJob d GenGlobalID query job w = (w', job', err) ->
  Version job' = currentVersion d
  /\ Query job' = default EmptyString query
  /\ (forall w0, deleteRange d job' w0 = addDelRangeJob d job' w0)
  /\ Type_ job' = Type_ job /\ SchemaID job' = SchemaID job
  /\ TableID job' = TableID job /\ State job' = State job
  /\ SchemaState_ job' = SchemaState_ job
  /\ Args job' = Args job /\ RawArgs job' = RawArgs job.
Proof.
  unfold addDDLJob, addDDLJob_txn.
  destruct (GenGlobalID _) as [[t1 id] [e|]].
  - destruct (endTxn _ _ w) as [w1 e1]. intros [= _ <- _].
    repeat split. intros w0. unfold deleteRange. simpl.
    rewrite Z.leb_refl. reflexivity.
  - destruct (EnQueueDDLJob t1 _) as [t2 e2].
    destruct (endTxn _ _ w) as [w1 e1]. intros [= _ <- _].
    repeat split. intros w0. unfold deleteRange. simpl.
    rewrite Z.leb_refl. reflexivity.
Qed.

Lemma addDDLJob_stamps_version_witness :
  let d := sampleDDL 1 (fun _ => true) (handlerKeep 5) in
  let job := setVersion 7 (sampleJob 0 ActionDropTable 3 JobStateQueued StateNone) in
  let w := sampleWorld (sampleStore [] [] noFault) in
  Version (snd (fst (addDDLJob d (fun t => (t, 42, None)) None job w))) = 1.
Proof.
  intros d job w.
  destruct (addDDLJob d (fun t => (t, 42, None)) None job w) as [[w' job'] err] eqn:Hrun.
  destruct (addDDLJob_stamps_version _ _ _ _ _ _ _ _ Hrun) as [Hv _]. exact Hv.
Defined.

(** X15.  When [addDDLJob] succeeds, the committed current queue is the
    old one with the job appended at its tail, carrying the ID that
    [GenGlobalID] returned and the start timestamp of the transaction;
    when it fails, the committed store is as it was.  Either way the
    worker's trace, range deletions and closed flag are untouched.
    [GenGlobalID] is taken to leave the queue and the store's answers
    alone. *)
Theorem addDDLJob_enqueues_at_tail
    (d : ddl) (GenGlobalID : GlobalIDGen) (query : option string) (job job' : Job)
    (w w' : World) (err : option error) :
  genKeepsQueue GenGlobalID ->
  addDDLJob d GenGlobalID query job w = (w', job', err) ->
  (err = None ->
   defaultJobs (store w') = defaultJobs (store w) ++ [job']
   /\ ID job' = snd (fst (GenGlobalID (NewMeta (store w) (beginTS d (now w)))))
   /\ JobStartTS job' = beginTS d (now w))
  /\ (err <> None -> store w' = store w)
  /\ trace w' = trace w /\ delRangeJobs w' = delRangeJobs w /\ closed w' = closed w.
Proof.
  intros Hgen. unfold addDDLJob, addDDLJob_txn.
  pose proof (Hgen (NewMeta (store w) (beginTS d (now w)))) as (Hq & Hk & _).
  destruct (GenGlobalID _) as [[t1 id] [e|]]; simpl in Hq, Hk.
  - simpl. intros [= <- <- <-]. repeat split; try discriminate.
  - destruct (EnQueueDDLJob t1 _) as [t2 e2] eqn:Henq.
    destruct (endTxn (txn t2) e2 w) as [w1 e1] eqn:Hend.
    intros [= <- <- <-].
    apply endTxn_trace in Hend as (Htr & Hc & Hd & Hok & Hfail).
    split; [|split; [exact Hfail | auto]].
    intros ->. destruct (Hok eq_refl) as [-> ->].
    unfold EnQueueDDLJob in Henq.
    destruct (fault (txn t1) OpEnQueueDDLJob); [discriminate|].
    injection Henq as <-.
    unfold setJobList, jobList. rewrite Hk. simpl. rewrite Hq. auto.
Qed.

Lemma addDDLJob_enqueues_at_tail_witness :
  let d := sampleDDL 1 (fun _ => true) (handlerKeep 5) in
  let queued := sampleJob 8 ActionAddColumn 3 JobStateRunning StateWriteOnly in
  let job := sampleJob 0 ActionDropTable 3 JobStateQueued StateNone in
  let w := sampleWorld (sampleStore [queued] [] noFault) in
  exists w' job',
    addDDLJob d (fun t => (t, 42, None)) (Some "drop table t"%string) job w
    = (w', job', None)
    /\ defaultJobs (store w') = [queued; job'] /\ ID job' = 42.
Proof.
  intros d queued job w.
  destruct (addDDLJob d (fun t => (t, 42, None)) (Some "drop table t"%string) job w)
    as [[w' job'] err] eqn:Hrun.
  assert (err = None) as -> by (vm_compute in Hrun; congruence).
  assert (genKeepsQueue (fun t => (t, 42, None))) as Hgen
    by (intros t; repeat split).
  destruct (addDDLJob_enqueues_at_tail d _ _ _ _ _ _ _ Hgen Hrun) as (Hok & _).
  destruct (Hok eq_refl) as (Hq & Hid & _).
  exists w', job'. split; [reflexivity|]. split; [exact Hq | exact Hid].
Defined.

(** ** The schema version and its diff *)

(** X16.  [updateSchemaVersion] returns version 0 with the error when the
    version cannot be generated or the arguments cannot be decoded, and in
    both cases no diff is written; a non-zero version it returns is the one
    just generated.  Only TruncateTable and RenameTable jobs have their
    arguments decoded.  For a TruncateTable job the diff carries the new
    table ID read from the arguments as its TableID and the job's table
    as its OldTableID. *)
Theorem updateSchemaVersion_version_and_diff
    (GenSchemaVersion : Meta -> Meta * Z * option error)
    (SetSchemaDiff : Meta -> SchemaDiff -> Meta * option error)
    (DecodeID : Job -> Job * Z * option error)
    (t t' : Meta) (job job' : Job) (ver : Z) (err : option error) :
  updateSchemaVersion GenSchemaVersion SetSchemaDiff DecodeID t job
  = (t', job', ver, err) ->
  let gen := GenSchemaVersion t in
  let dec := DecodeID job in
  (snd gen <> None
   \/ ((Type_ job = ActionTruncateTable \/ Type_ job = ActionRenameTable)
       /\ snd dec <> None) ->
   ver = 0 /\ err <> None
   /\ forall SetSchemaDiff',
        updateSchemaVersion GenSchemaVersion SetSchemaDiff' DecodeID t job
        = (t', job', ver, err))
  /\ (ver <> 0 -> snd gen = None /\ ver = snd (fst gen))
  /\ (err = None -> ver = snd (fst gen))
  /\ (Type_ job <> ActionTruncateTable -> Type_ job <> ActionRenameTable ->
      job' = job)
  /\ (Type_ job = ActionTruncateTable -> snd gen = None -> snd dec = None ->
      (t', err)
      = SetSchemaDiff (fst (fst gen))
          {| diffVersion := snd (fst gen); diffType := ActionTruncateTable;
             diffSchemaID := SchemaID job;
             diffTableID := snd (fst dec);
             diffOldTableID := TableID (fst (fst dec)); diffOldSchemaID := 0 |}).
Proof.
  intros Hrun. cbv zeta. unfold updateSchemaVersion in Hrun.
  destruct (GenSchemaVersion t) as [[t1 v] [ge|]] eqn:Hgen; simpl.
  - injection Hrun as <- <- <- <-.
    split.
    { intros _. split; [reflexivity|]. split; [discriminate|].
      intros S'. unfold updateSchemaVersion. rewrite Hgen. reflexivity. }
    split; [intros H; contradiction|].
    split; [discriminate|]. split; [reflexivity | intros _ H; discriminate].
  - destruct (Type_ job) eqn:Hty;
      try (destruct (SetSchemaDiff t1 _) as [t2 e2] eqn:Hset;
           injection Hrun as <- <- <- <-;
           split; [intros [H | [[H | H] _]]; [contradiction | discriminate | discriminate]|];
           split; [auto|]; split; [auto|]; split; [reflexivity | intros H; discriminate]).
    + (* TruncateTable *)
      destruct (DecodeID job) as [[j1 id] [de|]] eqn:Hdec; simpl.
      * injection Hrun as <- <- <- <-.
        split.
        { intros _. split; [reflexivity|]. split; [discriminate|].
          intros S'. unfold updateSchemaVersion. rewrite Hgen, Hty, Hdec. reflexivity. }
        split; [intros H; contradiction|]. split; [discriminate|].
        split; [intros H; contradiction | intros _ _ H; discriminate].
      * destruct (SetSchemaDiff t1 _) as [t2 e2] eqn:Hset.
        injection Hrun as <- <- <- <-.
        split; [intros [H | [_ H]]; contradiction|].
        split; [auto|]. split; [auto|].
        split; [intros H; contradiction | intros _ _ _; reflexivity].
    + (* RenameTable *)
      destruct (DecodeID job) as [[j1 id] [de|]] eqn:Hdec; simpl.
      * injection Hrun as <- <- <- <-.
        split.
        { intros _. split; [reflexivity|]. split; [discriminate|].
          intros S'. unfold updateSchemaVersion. rewrite Hgen, Hty, Hdec. reflexivity. }
        split; [intros H; contradiction|]. split; [discriminate|].
        split; [intros _ H; contradiction | intros H; discriminate].
      * destruct (SetSchemaDiff t1 _) as [t2 e2] eqn:Hset.
        injection Hrun as <- <- <- <-.
        split; [intros [H | [_ H]]; contradiction|].
        split; [auto|]. split; [auto|].
        split; [intros _ H; contradiction | intros H; discriminate].
Qed.

Lemma updateSchemaVersion_version_and_diff_witness :
  let gen := fun t : Meta => (t, 8, @None error) in
  let set := fun (t : Meta) (diff : SchemaDiff) =>
    (t, if diffTableID diff =? 31 then @None error else Some (PlainErr "diff")) in
  let dec := fun j : Job => (j, 31, @None error) in
  let t := NewMeta (sampleStore [] [] noFault) 100 in
  let job := sampleJob 5 ActionTruncateTable 3 JobStateDone StatePublic in
  snd (fst (updateSchemaVersion gen set dec t job)) = 8
  /\ snd (updateSchemaVersion gen set dec t job) = None.
Proof.
  intros gen set dec t job.
  destruct (updateSchemaVersion gen set dec t job) as [[[t' job'] ver] err] eqn:Hrun.
  destruct (updateSchemaVersion_version_and_diff gen set dec t t' job job' ver err Hrun)
    as (_ & _ & Hver & _ & Hdiff).
  assert (err = None) as Herr.
  { specialize (Hdiff eq_refl eq_refl eq_refl). vm_compute in Hdiff.
    injection Hdiff as _ ->. reflexivity. }
  simpl. split; [rewrite (Hver Herr); reflexivity | exact Herr].
Defined.
